(** * GridProperties: a lazily populated registry of grid properties

    Shallow embedding of
    [opm/parser/eclipse/EclipseState/Grid/GridProperties.hpp]
    (class template [Opm::GridProperties<T>]) and the properties of its
    keyword life cycle: unsupported / supported but absent / present,
    auto-generated or explicit.

    The C++ object keeps every property behind a [std::shared_ptr] that is
    stored twice, in the name-keyed [m_properties] and in the creation-order
    [m_property_list].  The embedding keeps that sharing: properties live in
    a store, and both containers hold addresses into it. *)

From stdpp Require Import base gmap strings list fin_maps.

(** ** Exceptions and results *)

(** The header throws [std::invalid_argument] with a message; the [at]
    member of the standard maps throws [std::out_of_range]. *)
Inductive exception :=
  | invalid_argument (what : string)
  | out_of_range.

Inductive outcome (A : Type) :=
  | Return (a : A)
  | Throw (e : exception).
Arguments Return {A} a.
Arguments Throw {A} e.

(** Modelled from the spec: the severity tag of a diagnostic message
    ([Log::MessageType] is declared in OpmLog, outside this header). *)
Inductive MessageType := Info | Warning.

(** A diagnostic message: a severity tag plus free-text body. *)
Definition Message : Type := MessageType * string.

(** An address of a [GridProperty<T>] object owned through [shared_ptr]. *)
Abbreviation ptr := nat (only parsing).

(** [std::unordered_map::emplace] and [std::map::insert]: the element is
    inserted only when the container has no element with that key. *)
Definition emplace {V : Type} (k : string) (v : V) (m : gmap string V)
  : gmap string V :=
  match m !! k with
  | Some _ => m
  | None => <[k := v]> m
  end.

(** [count(k) > 0] on a map. *)
Definition count_pos {V : Type} (m : gmap string V) (k : string) : bool :=
  bool_decide (is_Some (m !! k)).

(** [m.at(k)]: the mapped value, or [std::out_of_range]. *)
Definition map_at {V : Type} (m : gmap string V) (k : string) : outcome V :=
  match m !! k with
  | Some v => Return v
  | None => Throw out_of_range
  end.

Section GridProperties.
Context {T : Type}.

(** ** Collaborators *)

(** Modelled from the spec: [GridProperty<T>::SupportedKeywordInfo], the
    catalog descriptor (keyword name, default value, post-processor,
    dimension tag); its declaration is in GridProperty.hpp. *)
Record SupportedKeywordInfo := mkSupportedKeywordInfo {
  getKeywordName : string;
  getDefaultValue : T;
  getPostProcessor : list T → list T;
  getDimensionString : string
}.

(** Modelled from the spec: [EclipseGrid], of which only the three cell
    count extents are consumed.  The methods read them into [int] locals
    and hand them on unchanged; they are naturals here. *)
Record EclipseGrid := mkEclipseGrid {
  getNX : nat;
  getNY : nat;
  getNZ : nat
}.

(** Modelled from the spec: [GridProperty<T>], a dense array with one
    element per grid cell together with its descriptor. *)
Record GridProperty := mkGridProperty {
  m_nx : nat;
  m_ny : nat;
  m_nz : nat;
  m_kwInfo : SupportedKeywordInfo;
  m_data : list T
}.

(** Modelled from the spec: the [GridProperty<T>] constructor, which is
    given the extents and a descriptor and produces a default-filled array
    of extent-product length. *)
Definition GridProperty_new (nx ny nz : nat) (kwInfo : SupportedKeywordInfo)
  : GridProperty :=
  {| m_nx := nx; m_ny := ny; m_nz := nz; m_kwInfo := kwInfo;
     m_data := replicate (nx * ny * nz) (getDefaultValue kwInfo) |}.

(** Modelled from the spec: [Box], the region of a copy, given by the flat
    indices of the cells it covers. *)
Record Box := mkBox {
  getIndexList : list nat
}.

(** Modelled from the spec: [GridProperty<T>::copyFrom], the region-scoped
    copy between two arrays of the same shape.  Each cell of the region is
    overwritten with the source's value for that cell; a region index that
    is not a cell of both arrays is skipped. *)
Definition copy_cell (src : list T) (data : list T) (g : nat) : list T :=
  match src !! g with
  | Some v => <[g := v]> data
  | None => data
  end.

Definition copyFrom (target src : GridProperty) (inputBox : Box)
  : GridProperty :=
  {| m_nx := m_nx target; m_ny := m_ny target; m_nz := m_nz target;
     m_kwInfo := m_kwInfo target;
     m_data := foldl (copy_cell (m_data src)) (m_data target)
                     (getIndexList inputBox) |}.

(** ** The registry *)

(** The data members of [GridProperties<T>], followed by the two pieces of
    the surrounding program that its methods act on: [store], the
    [GridProperty<T>] objects behind the shared pointers, and [OpmLog], the
    messages handed to the process-wide logger. *)
Record GridProperties := mkGridProperties {
  m_eclipseGrid : EclipseGrid;
  m_messages : list Message;
  m_supportedKeywords : gmap string SupportedKeywordInfo;
  m_properties : gmap string ptr;
  m_autoGeneratedProperties_ : gset string;
  m_property_list : list ptr;
  store : list GridProperty;
  OpmLog : list Message
}.

(** Modelled from the spec: [OpmLog::addMessage], which appends a message
    to the ordered, append-only diagnostic collection. *)
Definition OpmLog_addMessage (ty : MessageType) (msg : string)
    (st : GridProperties) : GridProperties :=
  {| m_eclipseGrid := m_eclipseGrid st;
     m_messages := m_messages st;
     m_supportedKeywords := m_supportedKeywords st;
     m_properties := m_properties st;
     m_autoGeneratedProperties_ := m_autoGeneratedProperties_ st;
     m_property_list := m_property_list st;
     store := store st;
     OpmLog := OpmLog st ++ [(ty, msg)] |}.

(** A method body: it reads and updates the state and either returns or
    throws.  The state reached is kept on both paths, as a C++ exception
    does not undo the writes made before it. *)
Definition M (A : Type) : Type := GridProperties → outcome A * GridProperties.

Definition ret {A} (a : A) : M A := λ st, (Return a, st).
Definition throw {A} (e : exception) : M A := λ st, (Throw e, st).
Definition bind {A B} (m : M A) (k : A → M B) : M B :=
  λ st, match m st with
        | (Return a, st') => k a st'
        | (Throw e, st') => (Throw e, st')
        end.
Definition lift {A} (o : outcome A) : M A := λ st, (o, st).
Definition gets {A} (f : GridProperties → A) : M A := λ st, (Return (f st), st).
Definition modify (f : GridProperties → GridProperties) : M unit :=
  λ st, (Return tt, f st).

Notation "x <- m ;; k" := (bind m (λ x, k))
  (at level 100, m at next level, right associativity).
Notation "m ;;; k" := (bind m (λ _, k))
  (at level 100, right associativity).

(** [GridProperties(eclipseGrid, supportedKeywords)], lines 59-65.  The
    registry starts with an empty store and the log is taken as empty. *)
Definition GridProperties_new (eclipseGrid : EclipseGrid)
    (supportedKeywords : list SupportedKeywordInfo) : GridProperties :=
  {| m_eclipseGrid := eclipseGrid;
     m_messages := [];
     m_supportedKeywords :=
       foldl (λ m info, emplace (getKeywordName info) info m) ∅
             supportedKeywords;
     m_properties := ∅;
     m_autoGeneratedProperties_ := ∅;
     m_property_list := [];
     store := [];
     OpmLog := [] |}.

(** Lines 67-80. *)
Definition supportsKeyword (st : GridProperties) (keyword : string) : bool :=
  count_pos (m_supportedKeywords st) keyword.

Definition isAutoGenerated_ (st : GridProperties) (keyword : string) : bool :=
  bool_decide (keyword ∈ m_autoGeneratedProperties_ st).

Definition hasKeyword (st : GridProperties) (keyword : string) : bool :=
  let positive := count_pos (m_properties st) keyword in
  positive && negb (isAutoGenerated_ st keyword).

Definition size (st : GridProperties) : nat := length (m_property_list st).

Definition getMessageContainer (st : GridProperties) : list Message :=
  m_messages st.

(** [new GridProperty<T>(...)] wrapped in a [shared_ptr]: the object is
    placed at a fresh address of the store. *)
Definition make_shared (p : GridProperty) : M ptr :=
  λ st, (Return (length (store st)),
         {| m_eclipseGrid := m_eclipseGrid st;
            m_messages := m_messages st;
            m_supportedKeywords := m_supportedKeywords st;
            m_properties := m_properties st;
            m_autoGeneratedProperties_ := m_autoGeneratedProperties_ st;
            m_property_list := m_property_list st;
            store := store st ++ [p];
            OpmLog := OpmLog st |}).

(** [m_properties.insert(pair(k, p)); m_property_list.push_back(p)]. *)
Definition register (keywordName : string) (newProperty : ptr)
    (st : GridProperties) : GridProperties :=
  {| m_eclipseGrid := m_eclipseGrid st;
     m_messages := m_messages st;
     m_supportedKeywords := m_supportedKeywords st;
     m_properties := emplace keywordName newProperty (m_properties st);
     m_autoGeneratedProperties_ := m_autoGeneratedProperties_ st;
     m_property_list := m_property_list st ++ [newProperty];
     store := store st;
     OpmLog := OpmLog st |}.

(** [m_autoGeneratedProperties_.insert(k)] and [.erase(.find(k))]. *)
Definition set_autoGenerated (s : gset string) (st : GridProperties)
  : GridProperties :=
  {| m_eclipseGrid := m_eclipseGrid st;
     m_messages := m_messages st;
     m_supportedKeywords := m_supportedKeywords st;
     m_properties := m_properties st;
     m_autoGeneratedProperties_ := s;
     m_property_list := m_property_list st;
     store := store st;
     OpmLog := OpmLog st |}.

Definition unsupported_msg (keywordName : string) : string :=
  "The keyword: " +:+ keywordName +:+ " is not supported in this container".

Definition not_initialized_msg (keyword : string) : string :=
  "Keyword: " +:+ keyword +:+ " is supported - but not initialized.".

Definition not_supported_msg (keyword : string) : string :=
  "Keyword: " +:+ keyword +:+ " is not supported.".

Definition promotion_msg (keywordName : string) : string :=
  "The keyword " +:+ keywordName +:+ " has been used to calculate the "
  +:+ "defaults of another keyword before the first time it was "
  +:+ "explicitly mentioned in the deck. Maybe you need to change "
  +:+ "the ordering of your keywords (move " +:+ keywordName +:+ " to the "
  +:+ "front?).".

(** Lines 212-231. *)
Definition addAutoGeneratedKeyword_ (keywordName : string) : M bool :=
  λ st,
  if negb (supportsKeyword st keywordName) then
    throw (invalid_argument (unsupported_msg keywordName)) st
  else if count_pos (m_properties st) keywordName then
    ret false st
  else
    (supportedKeyword <- lift (map_at (m_supportedKeywords st) keywordName) ;;
     nx <- gets (λ s, getNX (m_eclipseGrid s)) ;;
     ny <- gets (λ s, getNY (m_eclipseGrid s)) ;;
     nz <- gets (λ s, getNZ (m_eclipseGrid s)) ;;
     newProperty <- make_shared (GridProperty_new nx ny nz supportedKeyword) ;;
     modify (λ s, set_autoGenerated
                    ({[keywordName]} ∪ m_autoGeneratedProperties_ s) s) ;;;
     modify (register keywordName newProperty) ;;;
     ret true) st.

(** Lines 124-154. *)
Definition addKeyword (keywordName : string) : M bool :=
  λ st,
  if negb (supportsKeyword st keywordName) then
    throw (invalid_argument (unsupported_msg keywordName)) st
  else if hasKeyword st keywordName then
    ret false st
  else if bool_decide (keywordName ∈ m_autoGeneratedProperties_ st) then
    (modify (OpmLog_addMessage Warning (promotion_msg keywordName)) ;;;
     modify (λ s, set_autoGenerated
                    (m_autoGeneratedProperties_ s ∖ {[keywordName]}) s) ;;;
     ret true) st
  else
    (supportedKeyword <- lift (map_at (m_supportedKeywords st) keywordName) ;;
     nx <- gets (λ s, getNX (m_eclipseGrid s)) ;;
     ny <- gets (λ s, getNY (m_eclipseGrid s)) ;;
     nz <- gets (λ s, getNZ (m_eclipseGrid s)) ;;
     newProperty <- make_shared (GridProperty_new nx ny nz supportedKeyword) ;;
     modify (register keywordName newProperty) ;;;
     ret true) st.

(** [getKeyword(const std::string&)], both overloads, lines 82-94. *)
Definition getKeyword (keyword : string) : M ptr :=
  λ st,
  ((if negb (hasKeyword st keyword)
    then addAutoGeneratedKeyword_ keyword ;;; ret tt
    else ret tt) ;;;
   (λ s, lift (map_at (m_properties s) keyword) s)) st.

(** [getKeyword(size_t)], both overloads, lines 96-108. *)
Definition getKeyword_index (index : nat) : M ptr :=
  λ st,
  if bool_decide (index < size st) then
    match m_property_list st !! index with
    | Some p => ret p st
    | None => throw out_of_range st (* not reached: index < size() *)
    end
  else throw (invalid_argument "Invalid index") st.

(** Lines 113-122. *)
Definition getInitializedKeyword (keyword : string) : M ptr :=
  λ st,
  if hasKeyword st keyword then
    lift (map_at (m_properties st) keyword) st
  else if supportsKeyword st keyword then
    throw (invalid_argument (not_initialized_msg keyword)) st
  else
    throw (invalid_argument (not_supported_msg keyword)) st.

(** Lines 191-196. *)
Definition getOrCreateProperty (name : string) : M ptr :=
  λ st,
  ((if negb (hasKeyword st name)
    then addKeyword name ;;; ret tt
    else ret tt) ;;;
   getKeyword name) st.

(** [target.copyFrom(src, inputBox)] through the two references.  A shared
    pointer never dangles, so both addresses are in the store. *)
Definition copyFrom_at (target src : ptr) (inputBox : Box)
    (st : GridProperties) : GridProperties :=
  match store st !! target, store st !! src with
  | Some pt, Some ps =>
      {| m_eclipseGrid := m_eclipseGrid st;
         m_messages := m_messages st;
         m_supportedKeywords := m_supportedKeywords st;
         m_properties := m_properties st;
         m_autoGeneratedProperties_ := m_autoGeneratedProperties_ st;
         m_property_list := m_property_list st;
         store := <[target := copyFrom pt ps inputBox]> (store st);
         OpmLog := OpmLog st |}
  | _, _ => st
  end.

(** Lines 156-163. *)
Definition copyKeyword (srcField targetField : string) (inputBox : Box)
  : M unit :=
  src <- getKeyword srcField ;;
  target <- getOrCreateProperty targetField ;;
  modify (copyFrom_at target src inputBox).

(** Lines 200-210. *)
Definition postAddKeyword (name : string) (defaultValue : T)
    (postProcessor : list T → list T) (dimString : string)
    (st : GridProperties) : GridProperties :=
  {| m_eclipseGrid := m_eclipseGrid st;
     m_messages := m_messages st;
     m_supportedKeywords :=
       emplace name
               (mkSupportedKeywordInfo name defaultValue postProcessor dimString)
               (m_supportedKeywords st);
     m_properties := m_properties st;
     m_autoGeneratedProperties_ := m_autoGeneratedProperties_ st;
     m_property_list := m_property_list st;
     store := store st;
     OpmLog := OpmLog st |}.

End GridProperties.

Notation "x <- m ;; k" := (bind m (λ x, k))
  (at level 100, m at next level, right associativity).
Notation "m ;;; k" := (bind m (λ _, k))
  (at level 100, right associativity).

(** ** Provenance and the representation invariant *)

Inductive Provenance := AutoGenerated | Explicit.

Section Invariant.
Context {T : Type}.
Implicit Types st : @GridProperties T.

(** The provenance tag of a keyword: absent, or present and tagged. *)
Definition provenance st (keyword : string) : option Provenance :=
  match m_properties st !! keyword with
  | None => None
  | Some _ =>
      Some (if bool_decide (keyword ∈ m_autoGeneratedProperties_ st)
            then AutoGenerated else Explicit)
  end.

(** The keyword a stored property was created for. *)
Definition name_at st (p : ptr) : option string :=
  (λ o, getKeywordName (m_kwInfo o)) <$> (store st !! p).

(** The number of cells of the grid the registry was built for. *)
Definition ncells st : nat :=
  getNX (m_eclipseGrid st) * getNY (m_eclipseGrid st)
  * getNZ (m_eclipseGrid st).

(** The invariant of a registry: catalog entries are filed under their own
    name; only supported keywords are materialized; the auto-generated tags
    belong to materialized keywords; the name-keyed map and the
    creation-order list hold the same instances, each listed once; every
    stored array has one element per grid cell. *)
Definition wf st : Prop :=
  map_Forall (λ k info, getKeywordName info = k) (m_supportedKeywords st) ∧
  dom (m_properties st) ⊆ dom (m_supportedKeywords st) ∧
  m_autoGeneratedProperties_ st ⊆ dom (m_properties st) ∧
  map_Forall (λ k p, p ∈ m_property_list st ∧ name_at st p = Some k)
             (m_properties st) ∧
  Forall (λ p, name_at st p ≫= (λ k, m_properties st !! k) = Some p)
         (m_property_list st) ∧
  NoDup (m_property_list st) ∧
  Forall (λ o, length (m_data o) = ncells st) (store st).

#[global] Instance wf_dec st : Decision (wf st).
Proof. unfold wf. apply _. Defined.

(** The state after a new property for [keywordName] has been created and
    registered; [auto] tells whether the lazy path or the explicit path
    created it. *)
Definition created (auto : bool) (keywordName : string) (info : @SupportedKeywordInfo T) st
  : GridProperties :=
  {| m_eclipseGrid := m_eclipseGrid st;
     m_messages := m_messages st;
     m_supportedKeywords := m_supportedKeywords st;
     m_properties := <[keywordName := length (store st)]> (m_properties st);
     m_autoGeneratedProperties_ :=
       if auto then {[keywordName]} ∪ m_autoGeneratedProperties_ st
       else m_autoGeneratedProperties_ st;
     m_property_list := m_property_list st ++ [length (store st)];
     store := store st ++
              [GridProperty_new (getNX (m_eclipseGrid st))
                 (getNY (m_eclipseGrid st)) (getNZ (m_eclipseGrid st)) info];
     OpmLog := OpmLog st |}.

(** The state after an auto-generated property has been promoted. *)
Definition promoted (keywordName : string) st : GridProperties :=
  {| m_eclipseGrid := m_eclipseGrid st;
     m_messages := m_messages st;
     m_supportedKeywords := m_supportedKeywords st;
     m_properties := m_properties st;
     m_autoGeneratedProperties_ :=
       m_autoGeneratedProperties_ st ∖ {[keywordName]};
     m_property_list := m_property_list st;
     store := store st;
     OpmLog := OpmLog st ++ [(Warning, promotion_msg keywordName)] |}.

End Invariant.

(** ** Vocabulary of the specification *)

(** The three failure kinds.  The header raises each of them as a
    [std::invalid_argument]; the kinds are told apart by the message. *)
Definition UnsupportedKeyword (keyword : string) (e : exception) : Prop :=
  e = invalid_argument (unsupported_msg keyword) ∨
  e = invalid_argument (not_supported_msg keyword).

Definition NotInitialized (keyword : string) (e : exception) : Prop :=
  e = invalid_argument (not_initialized_msg keyword).

Definition IndexOutOfRange (e : exception) : Prop :=
  e = invalid_argument "Invalid index".

(** A message names a keyword when the keyword occurs in its text. *)
Definition names_keyword (msg keyword : string) : Prop :=
  ∃ pre post, msg = pre +:+ keyword +:+ post.

(** The two ways of materializing a keyword. *)
Inductive Materialization := Lazy | Requested.

Definition is_lazy (m : Materialization) : bool :=
  match m with Lazy => true | Requested => false end.

Section Vocabulary.
Context {T : Type}.
Implicit Types st : @GridProperties T.

(** The entries of the creation-order list that are instances of a
    keyword. *)
Definition instances_of st (keyword : string) : list ptr :=
  filter (λ p, name_at st p = Some keyword) (m_property_list st).

(** The first and the last descriptor of a given name in a list. *)
Definition first_named (name : string) (l : list (@SupportedKeywordInfo T))
  : option SupportedKeywordInfo :=
  head (filter (λ info, getKeywordName info = name) l).

Definition last_named (name : string) (l : list (@SupportedKeywordInfo T))
  : option SupportedKeywordInfo :=
  last (filter (λ info, getKeywordName info = name) l).

(** One materialization: a lazy [getKeyword(name)] or an explicit
    [addKeyword(name)], whose result is dropped. *)
Definition materialize (op : Materialization * string) : M unit :=
  match op.1 with
  | Lazy => getKeyword (T := T) op.2 ;;; ret tt
  | Requested => addKeyword (T := T) op.2 ;;; ret tt
  end.

Fixpoint materialize_all (ops : list (Materialization * string)) : M unit :=
  match ops with
  | [] => ret tt
  | op :: ops' => materialize op ;;; materialize_all ops'
  end.

(** The instance of a keyword as a copy finds it: the stored instance, or
    the default-filled one that the call creates. *)
Definition before_copy st (keyword : string) : option GridProperty :=
  match m_properties st !! keyword with
  | Some p => store st !! p
  | None =>
      GridProperty_new (getNX (m_eclipseGrid st)) (getNY (m_eclipseGrid st))
                       (getNZ (m_eclipseGrid st))
      <$> (m_supportedKeywords st !! keyword)
  end.

(** Modelled from the spec: the explicit overwrite of one element of a
    property, as a caller does it through a handle that [getKeyword]
    returned. *)
Definition write_cell (p : ptr) (g : nat) (v : T) st : GridProperties :=
  match store st !! p with
  | Some o =>
      {| m_eclipseGrid := m_eclipseGrid st;
         m_messages := m_messages st;
         m_supportedKeywords := m_supportedKeywords st;
         m_properties := m_properties st;
         m_autoGeneratedProperties_ := m_autoGeneratedProperties_ st;
         m_property_list := m_property_list st;
         store := <[p := {| m_nx := m_nx o; m_ny := m_ny o; m_nz := m_nz o;
                            m_kwInfo := m_kwInfo o;
                            m_data := <[g := v]> (m_data o) |}]> (store st);
         OpmLog := OpmLog st |}
  | None => st
  end.

(** The states of a registry's life: it is constructed, and then its
    methods are called, in any order and with any arguments, and its
    properties are written through the handles. *)
Inductive reachable : GridProperties → Prop :=
  | reach_new grid kws :
      reachable (GridProperties_new grid kws)
  | reach_getKeyword st k :
      reachable st → reachable (getKeyword k st).2
  | reach_getInitializedKeyword st k :
      reachable st → reachable (getInitializedKeyword k st).2
  | reach_addKeyword st k :
      reachable st → reachable (addKeyword k st).2
  | reach_getOrCreateProperty st k :
      reachable st → reachable (getOrCreateProperty k st).2
  | reach_copyKeyword st src dst box :
      reachable st → reachable (copyKeyword src dst box st).2
  | reach_postAddKeyword st name d pp dim :
      reachable st → reachable (postAddKeyword name d pp dim st)
  | reach_write_cell st p g v :
      reachable st → reachable (write_cell p g v st).

(** One call of a method of the header, from the state before to the state
    after, whether the call returns or throws. *)
Inductive call : GridProperties → GridProperties → Prop :=
  | call_getKeyword st k :
      call st (getKeyword k st).2
  | call_getKeyword_index st i :
      call st (getKeyword_index i st).2
  | call_getInitializedKeyword st k :
      call st (getInitializedKeyword k st).2
  | call_addKeyword st k :
      call st (addKeyword k st).2
  | call_getOrCreateProperty st k :
      call st (getOrCreateProperty k st).2
  | call_copyKeyword st src dst box :
      call st (copyKeyword src dst box st).2
  | call_postAddKeyword st name d pp dim :
      call st (postAddKeyword name d pp dim st).

(** A later state extends an earlier one: the catalog and the instances
    are kept and may have grown, the creation-order list and the log have
    only been appended to, an auto-generated tag is either old or belongs
    to a keyword that had no instance, and the message container and the
    grid are the same. *)
Definition extends st st' : Prop :=
  m_supportedKeywords st ⊆ m_supportedKeywords st' ∧
  m_properties st ⊆ m_properties st' ∧
  m_property_list st `prefix_of` m_property_list st' ∧
  OpmLog st `prefix_of` OpmLog st' ∧
  (∀ k, k ∈ m_autoGeneratedProperties_ st' →
        k ∈ m_autoGeneratedProperties_ st ∨ m_properties st !! k = None) ∧
  m_messages st' = m_messages st ∧
  m_eclipseGrid st' = m_eclipseGrid st.

End Vocabulary.


(** ** A small scenario

    A catalog with PORO and PERMX on a grid of two cells, with integer
    element type, and a registry of a 2 x 2 x 1 grid that holds a source
    and a target for a region copy. *)

Definition PORO : @SupportedKeywordInfo Z :=
  mkSupportedKeywordInfo "PORO" 2%Z id "1".

Definition PORO_again : @SupportedKeywordInfo Z :=
  mkSupportedKeywordInfo "PORO" 5%Z id "1".

Definition PERMX : @SupportedKeywordInfo Z :=
  mkSupportedKeywordInfo "PERMX" 100%Z id "Permeability".

Definition grid_2x1x1 : EclipseGrid := mkEclipseGrid 2 1 1.

Definition grid_2x2x1 : EclipseGrid := mkEclipseGrid 2 2 1.

Definition new_registry : @GridProperties Z :=
  GridProperties_new grid_2x1x1 [PORO; PERMX].

(** The registry after [getKeyword("PORO")]: PORO is auto-generated. *)
Definition lazy_registry : @GridProperties Z :=
  (getKeyword "PORO" new_registry).2.

(** The same after the second cell of PORO has been set to 7 through the
    handle. *)
Definition written_registry : @GridProperties Z :=
  write_cell 0 1 7%Z lazy_registry.

(** PORO holds 1, 2, 3, 4 and PERMX holds 9 in every cell; both are
    explicit. *)
Definition copy_registry : @GridProperties Z :=
  {| m_eclipseGrid := grid_2x2x1;
     m_messages := [];
     m_supportedKeywords :=
       m_supportedKeywords (GridProperties_new grid_2x2x1 [PORO; PERMX]);
     m_properties := <["PORO" := 0]> (<["PERMX" := 1]> ∅);
     m_autoGeneratedProperties_ := ∅;
     m_property_list := [0; 1];
     store := [mkGridProperty 2 2 1 PORO [1; 2; 3; 4]%Z;
               mkGridProperty 2 2 1 PERMX [9; 9; 9; 9]%Z];
     OpmLog := [] |}.

Definition cells_0_1 : Box := mkBox [0; 1].

(** ** What each method does, case by case *)

Section Methods.
Context {T : Type}.
Implicit Types st : @GridProperties T.
Implicit Types info : @SupportedKeywordInfo T.

Lemma count_pos_Some {V} (m : gmap string V) k v :
  m !! k = Some v → count_pos m k = true.
Proof. intros H. unfold count_pos. apply bool_decide_eq_true. by exists v. Qed.

Lemma count_pos_None {V} (m : gmap string V) k :
  m !! k = None → count_pos m k = false.
Proof.
  intros H. unfold count_pos. apply bool_decide_eq_false.
  rewrite H. by intros [? ?].
Qed.

Lemma count_pos_true {V} (m : gmap string V) k :
  count_pos m k = true ↔ is_Some (m !! k).
Proof. unfold count_pos. apply bool_decide_eq_true. Qed.

Lemma count_pos_false {V} (m : gmap string V) k :
  count_pos m k = false ↔ m !! k = None.
Proof.
  unfold count_pos. rewrite bool_decide_eq_false.
  by rewrite eq_None_not_Some.
Qed.

Lemma supportsKeyword_dom st k :
  supportsKeyword st k = true ↔ k ∈ dom (m_supportedKeywords st).
Proof. unfold supportsKeyword. by rewrite count_pos_true, elem_of_dom. Qed.

Lemma hasKeyword_true st k :
  hasKeyword st k = true ↔
  is_Some (m_properties st !! k) ∧ k ∉ m_autoGeneratedProperties_ st.
Proof.
  unfold hasKeyword, isAutoGenerated_. cbv zeta.
  rewrite andb_true_iff, negb_true_iff, count_pos_true, bool_decide_eq_false.
  done.
Qed.

Lemma hasKeyword_provenance st k :
  hasKeyword st k = true ↔ provenance st k = Some Explicit.
Proof.
  rewrite hasKeyword_true. unfold provenance.
  destruct (m_properties st !! k) as [p|].
  - case_bool_decide as Ha; split.
    + by intros [_ ?].
    + done.
    + done.
    + intros _. split; [by exists p|done].
  - split; [intros [[? ?] _]; done|done].
Qed.

Lemma hasKeyword_auto st k :
  k ∈ m_autoGeneratedProperties_ st → hasKeyword st k = false.
Proof.
  intros H. apply not_true_is_false. rewrite hasKeyword_true. tauto.
Qed.

Lemma hasKeyword_absent st k :
  m_properties st !! k = None → hasKeyword st k = false.
Proof.
  intros H. apply not_true_is_false. rewrite hasKeyword_true, H.
  intros [[? ?] _]. done.
Qed.

Lemma emplace_None {V} (m : gmap string V) k v :
  m !! k = None → emplace k v m = <[k := v]> m.
Proof. intros H. unfold emplace. by rewrite H. Qed.

Lemma emplace_Some {V} (m : gmap string V) k v w :
  m !! k = Some w → emplace k v m = m.
Proof. intros H. unfold emplace. by rewrite H. Qed.

Lemma addAutoGeneratedKeyword__unsupported st k :
  supportsKeyword st k = false →
  addAutoGeneratedKeyword_ k st
  = (Throw (invalid_argument (unsupported_msg k)), st).
Proof. intros H. unfold addAutoGeneratedKeyword_. by rewrite H. Qed.

Lemma addAutoGeneratedKeyword__present st k p :
  supportsKeyword st k = true → m_properties st !! k = Some p →
  addAutoGeneratedKeyword_ k st = (Return false, st).
Proof.
  intros H Hp. unfold addAutoGeneratedKeyword_.
  by rewrite H, (count_pos_Some _ _ _ Hp).
Qed.

Lemma addAutoGeneratedKeyword__fresh st k info :
  m_supportedKeywords st !! k = Some info → m_properties st !! k = None →
  addAutoGeneratedKeyword_ k st = (Return true, created true k info st).
Proof.
  intros H Hp. unfold addAutoGeneratedKeyword_, supportsKeyword.
  rewrite (count_pos_Some _ _ _ H), (count_pos_None _ _ Hp). simpl.
  unfold bind, lift, map_at. rewrite H. simpl.
  unfold register, created. simpl. by rewrite (emplace_None _ _ _ Hp).
Qed.

Lemma addKeyword_unsupported st k :
  supportsKeyword st k = false →
  addKeyword k st = (Throw (invalid_argument (unsupported_msg k)), st).
Proof. intros H. unfold addKeyword. by rewrite H. Qed.

Lemma addKeyword_explicit st k :
  supportsKeyword st k = true → hasKeyword st k = true →
  addKeyword k st = (Return false, st).
Proof. intros H Hh. unfold addKeyword. by rewrite H, Hh. Qed.

Lemma addKeyword_promote st k :
  supportsKeyword st k = true → k ∈ m_autoGeneratedProperties_ st →
  addKeyword k st = (Return true, promoted k st).
Proof.
  intros H Ha. unfold addKeyword.
  rewrite H, (hasKeyword_auto _ _ Ha). simpl.
  by rewrite (bool_decide_eq_true_2 _ Ha).
Qed.

Lemma addKeyword_fresh st k info :
  m_supportedKeywords st !! k = Some info → m_properties st !! k = None →
  k ∉ m_autoGeneratedProperties_ st →
  addKeyword k st = (Return true, created false k info st).
Proof.
  intros H Hp Ha. unfold addKeyword, supportsKeyword.
  rewrite (count_pos_Some _ _ _ H), (hasKeyword_absent _ _ Hp). simpl.
  rewrite (bool_decide_eq_false_2 _ Ha).
  unfold bind, lift, map_at. rewrite H. simpl.
  unfold register, created. simpl. by rewrite (emplace_None _ _ _ Hp).
Qed.

(** [getKeyword] on a keyword that is present, whatever its tag. *)
Lemma getKeyword_present st k p :
  supportsKeyword st k = true → m_properties st !! k = Some p →
  getKeyword k st = (Return p, st).
Proof.
  intros H Hp. unfold getKeyword.
  destruct (hasKeyword st k); simpl; unfold bind.
  - unfold ret, lift, map_at. by rewrite Hp.
  - rewrite (addAutoGeneratedKeyword__present _ _ _ H Hp).
    unfold ret, lift, map_at. by rewrite Hp.
Qed.

(** [getKeyword] on an explicit keyword needs no catalog lookup. *)
Lemma getKeyword_explicit st k p :
  hasKeyword st k = true → m_properties st !! k = Some p →
  getKeyword k st = (Return p, st).
Proof.
  intros H Hp. unfold getKeyword. rewrite H. simpl.
  unfold bind, ret, lift, map_at. by rewrite Hp.
Qed.

Lemma getKeyword_fresh st k info :
  m_supportedKeywords st !! k = Some info → m_properties st !! k = None →
  getKeyword k st = (Return (length (store st)), created true k info st).
Proof.
  intros H Hp. unfold getKeyword.
  rewrite (hasKeyword_absent _ _ Hp). simpl. unfold bind.
  rewrite (addAutoGeneratedKeyword__fresh _ _ _ H Hp).
  unfold ret, lift, map_at. simpl. by rewrite lookup_insert_eq.
Qed.

Lemma getKeyword_unsupported st k :
  supportsKeyword st k = false → hasKeyword st k = false →
  getKeyword k st = (Throw (invalid_argument (unsupported_msg k)), st).
Proof.
  intros H Hh. unfold getKeyword. rewrite Hh. simpl. unfold bind.
  by rewrite (addAutoGeneratedKeyword__unsupported _ _ H).
Qed.

End Methods.

(** ** The invariant is established by the constructor and kept by every
    method *)

Section Preservation.
Context {T : Type}.
Implicit Types st : @GridProperties T.
Implicit Types info : @SupportedKeywordInfo T.

Lemma name_at_lt st p k : name_at st p = Some k → p < length (store st).
Proof.
  unfold name_at. intros H. apply fmap_Some in H as (o & Ho & _).
  by apply lookup_lt_Some in Ho.
Qed.

Lemma listed_lt st p :
  wf st → p ∈ m_property_list st → p < length (store st).
Proof.
  intros (_ & _ & _ & _ & Hl & _) Hp.
  rewrite Forall_forall in Hl. specialize (Hl p Hp).
  destruct (name_at st p) as [k|] eqn:E; [|done].
  by apply name_at_lt in E.
Qed.

Lemma name_at_created_old b k info st p :
  p < length (store st) → name_at (created b k info st) p = name_at st p.
Proof. intros H. unfold name_at. simpl. by rewrite lookup_app_l. Qed.

Lemma name_at_created_new b k info st :
  name_at (created b k info st) (length (store st))
  = Some (getKeywordName info).
Proof.
  unfold name_at. simpl.
  rewrite lookup_app_r, Nat.sub_diag by lia. done.
Qed.

Lemma emplace_names (m : gmap string (@SupportedKeywordInfo T)) info :
  map_Forall (λ k i, getKeywordName i = k) m →
  map_Forall (λ k i, getKeywordName i = k) (emplace (getKeywordName info) info m).
Proof.
  intros H. unfold emplace.
  destruct (m !! getKeywordName info); [done|].
  by apply map_Forall_insert_2.
Qed.

Lemma foldl_emplace_names (l : list (@SupportedKeywordInfo T)) m :
  map_Forall (λ k i, getKeywordName i = k) m →
  map_Forall (λ k i, getKeywordName i = k)
    (foldl (λ m info, emplace (getKeywordName info) info m) m l).
Proof.
  revert m. induction l as [|info l IH]; intros m H; simpl; [done|].
  apply IH. by apply emplace_names.
Qed.

Lemma wf_GridProperties_new grid (kws : list (@SupportedKeywordInfo T)) :
  wf (GridProperties_new grid kws).
Proof.
  unfold wf, GridProperties_new. simpl. split_and!.
  - apply foldl_emplace_names, map_Forall_empty.
  - set_solver.
  - set_solver.
  - apply map_Forall_empty.
  - constructor.
  - constructor.
  - constructor.
Qed.

Lemma wf_created b k info st :
  wf st → m_supportedKeywords st !! k = Some info →
  m_properties st !! k = None → wf (created b k info st).
Proof.
  intros Hwf Hk Hp.
  assert (Hlt : ∀ p, p ∈ m_property_list st → p < length (store st))
    by (intros p; by apply listed_lt).
  destruct Hwf as (Hcat & Hsup & Hauto & Hprops & Hlist & Hnd & Hshape).
  assert (Hname : getKeywordName info = k) by (by apply (Hcat k info)).
  unfold wf. split_and!.
  - exact Hcat.
  - simpl. rewrite dom_insert_L.
    assert (k ∈ dom (m_supportedKeywords st)) by (apply elem_of_dom; eauto).
    apply union_subseteq. split; [by apply singleton_subseteq_l|done].
  - simpl. rewrite dom_insert_L. destruct b.
    + by apply union_mono_l.
    + etrans; [exact Hauto|apply union_subseteq_r].
  - simpl m_properties. apply map_Forall_insert_2.
    + split; [simpl; set_solver|].
      by rewrite name_at_created_new, Hname.
    + intros k' p' Hk'. destruct (Hprops k' p' Hk') as [Hin Hn].
      split; [simpl; set_solver|].
      rewrite name_at_created_old; [done|]. by apply Hlt.
  - simpl m_property_list. apply Forall_app. split.
    + rewrite Forall_forall in Hlist |- *. intros p Hin.
      specialize (Hlist p Hin).
      rewrite name_at_created_old by (by apply Hlt).
      destruct (name_at st p) as [k'|]; [|done]. simpl in *.
      rewrite lookup_insert_ne; [done|]. intros ->. congruence.
    + apply Forall_singleton. rewrite name_at_created_new, Hname. simpl.
      by rewrite lookup_insert_eq.
  - simpl. apply NoDup_app. split_and!; [done| |apply NoDup_singleton].
    intros p Hin Hin'. apply list_elem_of_singleton in Hin'.
    apply Hlt in Hin. lia.
  - simpl store. apply Forall_app. split; [done|].
    apply Forall_singleton. simpl. by rewrite length_replicate.
Qed.

Lemma wf_promoted k st : wf st → wf (promoted k st).
Proof.
  intros (Hcat & Hsup & Hauto & Hprops & Hlist & Hnd & Hshape).
  unfold wf, promoted. simpl. split_and!; try done.
  by apply subseteq_difference_l.
Qed.

Lemma wf_supported st k p :
  wf st → m_properties st !! k = Some p → supportsKeyword st k = true.
Proof.
  intros (_ & Hsup & _) Hp. apply supportsKeyword_dom, Hsup, elem_of_dom.
  by exists p.
Qed.

Lemma wf_unsupported_absent st k :
  wf st → supportsKeyword st k = false → m_properties st !! k = None.
Proof.
  intros Hwf Hs. destruct (m_properties st !! k) as [p|] eqn:E; [|done].
  rewrite (wf_supported _ _ _ Hwf E) in Hs. done.
Qed.

Lemma wf_auto_present st k :
  wf st → k ∈ m_autoGeneratedProperties_ st → is_Some (m_properties st !! k).
Proof. intros (_ & _ & Hauto & _) Hk. by apply elem_of_dom, Hauto. Qed.

Lemma wf_addAutoGeneratedKeyword_ st k :
  wf st → wf (addAutoGeneratedKeyword_ k st).2.
Proof.
  intros Hwf. destruct (supportsKeyword st k) eqn:Hs.
  - destruct (m_properties st !! k) as [p|] eqn:Hp.
    + by rewrite (addAutoGeneratedKeyword__present _ _ _ Hs Hp).
    + apply count_pos_true in Hs as [info Hi].
      rewrite (addAutoGeneratedKeyword__fresh _ _ _ Hi Hp).
      by apply wf_created.
  - by rewrite (addAutoGeneratedKeyword__unsupported _ _ Hs).
Qed.

Lemma wf_addKeyword st k : wf st → wf (addKeyword k st).2.
Proof.
  intros Hwf. destruct (supportsKeyword st k) eqn:Hs.
  - destruct (hasKeyword st k) eqn:Hh.
    { by rewrite (addKeyword_explicit _ _ Hs Hh). }
    destruct (decide (k ∈ m_autoGeneratedProperties_ st)) as [Ha|Ha].
    { rewrite (addKeyword_promote _ _ Hs Ha). by apply wf_promoted. }
    destruct (m_properties st !! k) as [p|] eqn:Hp.
    { assert (hasKeyword st k = true) by (apply hasKeyword_true; eauto).
      congruence. }
    apply count_pos_true in Hs as [info Hi].
    rewrite (addKeyword_fresh _ _ _ Hi Hp Ha). by apply wf_created.
  - by rewrite (addKeyword_unsupported _ _ Hs).
Qed.

Lemma wf_getKeyword st k : wf st → wf (getKeyword k st).2.
Proof.
  intros Hwf. unfold getKeyword.
  destruct (hasKeyword st k); simpl; unfold bind, ret, lift.
  - by destruct (map_at (m_properties st) k).
  - pose proof (wf_addAutoGeneratedKeyword_ st k Hwf) as H.
    destruct (addAutoGeneratedKeyword_ k st) as [[b|e] st']; simpl in *;
      [|done].
    by destruct (map_at (m_properties st') k).
Qed.

Lemma wf_getOrCreateProperty st k : wf st → wf (getOrCreateProperty k st).2.
Proof.
  intros Hwf. unfold getOrCreateProperty.
  destruct (hasKeyword st k); simpl; unfold bind, ret.
  - by apply wf_getKeyword.
  - pose proof (wf_addKeyword st k Hwf) as H.
    destruct (addKeyword k st) as [[b|e] st']; simpl in *; [|done].
    by apply wf_getKeyword.
Qed.

Lemma name_at_copyFrom_at st t s box p :
  name_at (copyFrom_at t s box st) p = name_at st p.
Proof.
  unfold copyFrom_at, name_at.
  destruct (store st !! t) as [pt|] eqn:Et; [|done].
  destruct (store st !! s) as [ps|] eqn:Es; [|done]. simpl.
  destruct (decide (t = p)) as [->|Hne].
  - rewrite list_lookup_insert_eq by (by apply lookup_lt_Some in Et).
    by rewrite Et.
  - by rewrite list_lookup_insert_ne.
Qed.

Lemma copyFrom_at_fields st t s box :
  m_supportedKeywords (copyFrom_at t s box st) = m_supportedKeywords st ∧
  m_properties (copyFrom_at t s box st) = m_properties st ∧
  m_autoGeneratedProperties_ (copyFrom_at t s box st)
  = m_autoGeneratedProperties_ st ∧
  m_property_list (copyFrom_at t s box st) = m_property_list st ∧
  OpmLog (copyFrom_at t s box st) = OpmLog st ∧
  m_messages (copyFrom_at t s box st) = m_messages st.
Proof.
  unfold copyFrom_at.
  destruct (store st !! t); [|done]. by destruct (store st !! s).
Qed.

Lemma length_copy_cells (src : list T) (idx : list nat) (data : list T) :
  length (foldl (copy_cell src) data idx) = length data.
Proof.
  revert data. induction idx as [|g idx IH]; intros data; simpl; [done|].
  rewrite IH. unfold copy_cell. destruct (src !! g); [|done].
  apply length_insert.
Qed.

Lemma shape_copyFrom_at st t s box :
  Forall (λ o, length (m_data o) = ncells st) (store st) →
  Forall (λ o, length (m_data o) = ncells st) (store (copyFrom_at t s box st)).
Proof.
  intros H. unfold copyFrom_at.
  destruct (store st !! t) as [pt|] eqn:Et; [|done].
  destruct (store st !! s) as [ps|] eqn:Es; [|done]. simpl.
  apply Forall_insert; [done|]. simpl. rewrite length_copy_cells.
  rewrite Forall_forall in H. apply H. by eapply list_elem_of_lookup_2.
Qed.

Lemma ncells_copyFrom_at st t s box :
  ncells (copyFrom_at t s box st) = ncells st.
Proof.
  unfold copyFrom_at, ncells.
  destruct (store st !! t); [|done]. by destruct (store st !! s).
Qed.

Lemma wf_copyFrom_at st t s box : wf st → wf (copyFrom_at t s box st).
Proof.
  intros (Hcat & Hsup & Hauto & Hprops & Hlist & Hnd & Hshape).
  destruct (copyFrom_at_fields st t s box) as (E1 & E2 & E3 & E4 & _).
  unfold wf. rewrite E1, E2, E3, E4, ncells_copyFrom_at.
  split_and!; try done.
  - intros k p Hk. rewrite name_at_copyFrom_at. by apply Hprops.
  - rewrite Forall_forall in Hlist |- *. intros p Hin.
    rewrite name_at_copyFrom_at. by apply Hlist.
  - by apply shape_copyFrom_at.
Qed.

Lemma wf_copyKeyword st src tgt box :
  wf st → wf (copyKeyword src tgt box st).2.
Proof.
  intros Hwf. unfold copyKeyword, bind.
  pose proof (wf_getKeyword st src Hwf) as H1.
  destruct (getKeyword src st) as [[s|e] st1]; simpl in *; [|done].
  pose proof (wf_getOrCreateProperty st1 tgt H1) as H2.
  destruct (getOrCreateProperty tgt st1) as [[t|e] st2]; simpl in *; [|done].
  by apply wf_copyFrom_at.
Qed.

Lemma wf_postAddKeyword st name d pp dim :
  wf st → wf (postAddKeyword name d pp dim st).
Proof.
  intros (Hcat & Hsup & Hauto & Hprops & Hlist & Hnd & Hshape).
  unfold wf, postAddKeyword. simpl. split_and!; try done.
  - by apply (emplace_names _ (mkSupportedKeywordInfo name d pp dim)).
  - unfold emplace. destruct (m_supportedKeywords st !! name); [done|].
    rewrite dom_insert_L. set_solver.
Qed.

Lemma wf_getInitializedKeyword st k :
  wf st → wf (getInitializedKeyword k st).2.
Proof.
  intros Hwf. unfold getInitializedKeyword, throw, lift.
  destruct (hasKeyword st k); [done|]. by destruct (supportsKeyword st k).
Qed.

Lemma wf_write_cell st p g v : wf st → wf (write_cell p g v st).
Proof.
  intros Hwf. unfold write_cell.
  destruct (store st !! p) as [o|] eqn:Ho; [|done].
  assert (Hname : ∀ q, name_at
    {| m_eclipseGrid := m_eclipseGrid st; m_messages := m_messages st;
       m_supportedKeywords := m_supportedKeywords st;
       m_properties := m_properties st;
       m_autoGeneratedProperties_ := m_autoGeneratedProperties_ st;
       m_property_list := m_property_list st;
       store := <[p := {| m_nx := m_nx o; m_ny := m_ny o; m_nz := m_nz o;
                          m_kwInfo := m_kwInfo o;
                          m_data := <[g := v]> (m_data o) |}]> (store st);
       OpmLog := OpmLog st |} q = name_at st q).
  { intros q. unfold name_at. simpl. destruct (decide (p = q)) as [->|Hne].
    - rewrite list_lookup_insert_eq by (by apply lookup_lt_Some in Ho).
      by rewrite Ho.
    - by rewrite list_lookup_insert_ne. }
  destruct Hwf as (Hcat & Hsup & Hauto & Hprops & Hlist & Hnd & Hshape).
  unfold wf. simpl m_supportedKeywords. simpl m_properties.
  simpl m_autoGeneratedProperties_. simpl m_property_list.
  split_and!; try done.
  - intros k q Hk. rewrite Hname. by apply Hprops.
  - rewrite Forall_forall in Hlist |- *. intros q Hin.
    rewrite Hname. by apply Hlist.
  - simpl. apply Forall_insert; [done|]. simpl. rewrite length_insert.
    rewrite Forall_forall in Hshape. apply Hshape.
    by eapply list_elem_of_lookup_2.
Qed.

(** Every state of a registry's life satisfies the invariant. *)
Lemma reachable_wf st : reachable st → wf st.
Proof.
  induction 1.
  - apply wf_GridProperties_new.
  - by apply wf_getKeyword.
  - by apply wf_getInitializedKeyword.
  - by apply wf_addKeyword.
  - by apply wf_getOrCreateProperty.
  - by apply wf_copyKeyword.
  - by apply wf_postAddKeyword.
  - by apply wf_write_cell.
Qed.

End Preservation.

(** ** Message texts *)

Lemma string_app_cons (c : Ascii.ascii) (a b : string) :
  String c a +:+ b = String c (a +:+ b).
Proof. reflexivity. Qed.

Lemma string_length_app (a b : string) :
  String.length (a +:+ b) = String.length a + String.length b.
Proof.
  induction a as [|c a IH]; [done|].
  rewrite string_app_cons. simpl. by rewrite IH.
Qed.

Lemma string_app_assoc (a b c : string) :
  (a +:+ b) +:+ c = a +:+ (b +:+ c).
Proof.
  induction a as [|x a IH]; [done|].
  rewrite !string_app_cons. by rewrite IH.
Qed.

(** Two texts that end in suffixes of the same length end in the same
    suffix when they are equal. *)
Lemma string_app_suffix (a b x y : string) :
  String.length x = String.length y → a +:+ x = b +:+ y → x = y.
Proof.
  revert b. induction a as [|c a IH]; intros [|d b] Hlen H.
  - done.
  - apply (f_equal String.length) in H.
    rewrite !string_length_app in H. simpl in H. lia.
  - apply (f_equal String.length) in H.
    rewrite !string_length_app in H. simpl in H. lia.
  - rewrite !string_app_cons in H. injection H as _ H. by apply (IH b).
Qed.

Lemma not_initialized_not_unsupported (k k' : string) :
  not_initialized_msg k ≠ unsupported_msg k'.
Proof. unfold not_initialized_msg, unsupported_msg. simpl. discriminate. Qed.

Lemma not_initialized_not_supported (k k' : string) :
  not_initialized_msg k ≠ not_supported_msg k'.
Proof.
  unfold not_initialized_msg, not_supported_msg. intros H.
  change " is supported - but not initialized."
    with (" is supported - but not initiali" +:+ "zed.") in H.
  change " is not supported." with (" is not suppor" +:+ "ted.") in H.
  rewrite <- !string_app_assoc in H.
  apply string_app_suffix in H; [discriminate|done].
Qed.

Lemma failure_kinds_disjoint (k k' : string) (e : exception) :
  NotInitialized k e → ¬ UnsupportedKeyword k' e.
Proof.
  unfold NotInitialized, UnsupportedKeyword. intros -> [H|H].
  - apply (not_initialized_not_unsupported k k'). congruence.
  - apply (not_initialized_not_supported k k'). congruence.
Qed.

Lemma promotion_msg_names (k : string) : names_keyword (promotion_msg k) k.
Proof. exists "The keyword ". eexists. unfold promotion_msg. reflexivity. Qed.

(** ** Properties of the keyword life cycle *)

Section LifeCycle.
Context {T : Type}.
Implicit Types st : @GridProperties T.
Implicit Types info : @SupportedKeywordInfo T.

Lemma hasKeyword_promoted st k p :
  m_properties st !! k = Some p → hasKeyword (promoted k st) k = true.
Proof.
  intros Hp. apply hasKeyword_true. simpl. split; [by exists p|].
  rewrite elem_of_difference, elem_of_singleton. tauto.
Qed.

(** C1. For a keyword that is in the catalog and whose instance is
    auto-generated, [addKeyword] returns true, keeps the same instance with
    its element values as they were, makes [hasKeyword] true, and appends
    exactly one warning, which names the keyword, to the log (the message
    container of the registry is not written). *)
Theorem addKeyword_promotes_in_place st (name : string) (p : ptr) :
  supportsKeyword st name = true →
  m_properties st !! name = Some p →
  name ∈ m_autoGeneratedProperties_ st →
  ∃ st',
    addKeyword name st = (Return true, st') ∧
    m_properties st' !! name = Some p ∧
    m_property_list st' = m_property_list st ∧
    store st' = store st ∧
    hasKeyword st' name = true ∧
    OpmLog st' = OpmLog st ++ [(Warning, promotion_msg name)] ∧
    names_keyword (promotion_msg name) name ∧
    getMessageContainer st' = getMessageContainer st.
Proof.
  intros Hs Hp Ha. exists (promoted name st).
  split_and!; try done.
  - by apply addKeyword_promote.
  - by apply (hasKeyword_promoted st name p).
  - apply promotion_msg_names.
Qed.

(** C2. [hasKeyword] is true exactly for a keyword whose instance exists
    and is tagged explicit; it is false when no instance exists and when
    the instance is auto-generated, as it is right after a lazy
    [getKeyword] of a supported keyword that had no explicit instance. *)
Theorem hasKeyword_iff_explicit st (name : string) :
  (hasKeyword st name = true ↔ provenance st name = Some Explicit) ∧
  (provenance st name = None → hasKeyword st name = false) ∧
  (provenance st name = Some AutoGenerated → hasKeyword st name = false) ∧
  (supportsKeyword st name = true → hasKeyword st name = false →
   ∃ p st', getKeyword name st = (Return p, st') ∧
            provenance st' name = Some AutoGenerated ∧
            hasKeyword st' name = false).
Proof.
  pose proof (hasKeyword_provenance st name) as Hiff.
  split_and!; [done| | |].
  - intros H. apply not_true_is_false. rewrite Hiff, H. done.
  - intros H. apply not_true_is_false. rewrite Hiff, H. done.
  - intros Hs Hh. apply count_pos_true in Hs as Hs'. destruct Hs' as [info Hi].
    destruct (m_properties st !! name) as [p|] eqn:Hp.
    + exists p, st. split; [by apply getKeyword_present|]. split; [|done].
      unfold provenance. rewrite Hp. case_bool_decide as Ha; [done|].
      assert (hasKeyword st name = true) by (apply hasKeyword_true; eauto).
      congruence.
    + exists (length (store st)), (created true name info st).
      split; [by apply getKeyword_fresh|].
      assert (Ha : name ∈ m_autoGeneratedProperties_ (created true name info st))
        by (simpl; by apply elem_of_union_l, elem_of_singleton).
      split; [|by apply hasKeyword_auto].
      unfold provenance. simpl. rewrite lookup_insert_eq.
      by rewrite bool_decide_eq_true_2.
Qed.

(** C5. [getInitializedKeyword] never changes the registry; on a supported
    keyword without explicit instance it fails as not initialized, on a
    keyword outside the catalog it fails as unsupported, it returns an
    instance only when that instance is explicit, and no failure is of both
    kinds. *)
Theorem getInitializedKeyword_strict st (name : string) :
  wf st →
  (getInitializedKeyword name st).2 = st ∧
  (supportsKeyword st name = true → hasKeyword st name = false →
   ∃ e, NotInitialized name e ∧
        getInitializedKeyword name st = (Throw e, st)) ∧
  (supportsKeyword st name = false →
   ∃ e, UnsupportedKeyword name e ∧
        getInitializedKeyword name st = (Throw e, st)) ∧
  (∀ p, (getInitializedKeyword name st).1 = Return p →
        provenance st name = Some Explicit ∧
        m_properties st !! name = Some p) ∧
  (provenance st name = Some Explicit →
   ∃ p, m_properties st !! name = Some p ∧
        getInitializedKeyword name st = (Return p, st)) ∧
  (∀ k k' e, NotInitialized k e → ¬ UnsupportedKeyword k' e).
Proof.
  intros Hwf.
  pose proof (hasKeyword_provenance st name) as Hiff.
  unfold getInitializedKeyword, throw, lift, map_at.
  destruct (hasKeyword st name) eqn:Hh.
  - apply hasKeyword_true in Hh as Hh'. destruct Hh' as [[p Hp] Ha].
    rewrite Hp. simpl. split_and!; try done.
    + intros Hs. rewrite (wf_unsupported_absent _ _ Hwf Hs) in Hp. done.
    + intros q [= <-]. split; [by apply Hiff|done].
    + intros _. by exists p.
    + apply failure_kinds_disjoint.
  - destruct (supportsKeyword st name) eqn:Hs; simpl; split_and!; try done.
    + intros _ _. by eexists.
    + intros H. apply Hiff in H. done.
    + apply failure_kinds_disjoint.
    + intros _. eexists. split; [|done]. by right.
    + intros H. apply Hiff in H. done.
    + apply failure_kinds_disjoint.
Qed.

(** C6. For a name that is not in the catalog, [supportsKeyword] and
    [hasKeyword] are false and [getKeyword], [getInitializedKeyword],
    [addKeyword] and [getOrCreateProperty] all fail as unsupported and leave
    the whole state, in particular the instances, the creation-order list
    and the size, as it was. *)
Theorem unsupported_name_fails st (name : string) :
  wf st →
  m_supportedKeywords st !! name = None →
  supportsKeyword st name = false ∧
  hasKeyword st name = false ∧
  (∃ e, UnsupportedKeyword name e ∧ getKeyword name st = (Throw e, st)) ∧
  (∃ e, UnsupportedKeyword name e ∧
        getInitializedKeyword name st = (Throw e, st)) ∧
  (∃ e, UnsupportedKeyword name e ∧ addKeyword name st = (Throw e, st)) ∧
  (∃ e, UnsupportedKeyword name e ∧
        getOrCreateProperty name st = (Throw e, st)).
Proof.
  intros Hwf Hn.
  assert (Hs : supportsKeyword st name = false)
    by (by apply count_pos_false).
  assert (Hh : hasKeyword st name = false)
    by (by apply hasKeyword_absent, wf_unsupported_absent).
  split_and!; try done.
  - eexists. split; [by left|]. by apply getKeyword_unsupported.
  - eexists. split; [by right|].
    unfold getInitializedKeyword. by rewrite Hh, Hs.
  - eexists. split; [by left|]. by apply addKeyword_unsupported.
  - eexists. split; [by left|]. unfold getOrCreateProperty.
    rewrite Hh. simpl. unfold bind.
    by rewrite (addKeyword_unsupported _ _ Hs).
Qed.

(** C10. [postAddKeyword] on a name that the catalog already has changes
    nothing: the existing entry stays. *)
Theorem postAddKeyword_existing st (name : string) (defaultValue : T)
    (postProcessor : list T → list T) (dimString : string) info :
  m_supportedKeywords st !! name = Some info →
  postAddKeyword name defaultValue postProcessor dimString st = st ∧
  m_supportedKeywords
    (postAddKeyword name defaultValue postProcessor dimString st) !! name
  = Some info.
Proof.
  intros H.
  assert (E : postAddKeyword name defaultValue postProcessor dimString st = st).
  { unfold postAddKeyword. rewrite (emplace_Some _ _ _ _ H). by destruct st. }
  by rewrite E.
Qed.

End LifeCycle.

(** ** Promotion through [getOrCreateProperty] and [copyKeyword] *)

Section Promotion.
Context {T : Type}.
Implicit Types st : @GridProperties T.
Implicit Types info : @SupportedKeywordInfo T.

(** [getKeyword] on a supported keyword always returns: the instance that
    exists, or a fresh auto-generated one. *)
Lemma getKeyword_supported st k info :
  m_supportedKeywords st !! k = Some info →
  getKeyword k st =
  match m_properties st !! k with
  | Some p => (Return p, st)
  | None => (Return (length (store st)), created true k info st)
  end.
Proof.
  intros Hi. destruct (m_properties st !! k) as [p|] eqn:Hp.
  - apply getKeyword_present; [|done]. by apply (count_pos_Some _ _ info).
  - by apply getKeyword_fresh.
Qed.

Lemma getOrCreateProperty_auto st k p :
  supportsKeyword st k = true → m_properties st !! k = Some p →
  k ∈ m_autoGeneratedProperties_ st →
  getOrCreateProperty k st = (Return p, promoted k st).
Proof.
  intros Hs Hp Ha. unfold getOrCreateProperty.
  rewrite (hasKeyword_auto _ _ Ha). simpl. unfold bind.
  rewrite (addKeyword_promote _ _ Hs Ha). simpl.
  apply getKeyword_explicit; [|done]. by apply (hasKeyword_promoted st k p).
Qed.

Lemma getOrCreateProperty_explicit st k p :
  hasKeyword st k = true → m_properties st !! k = Some p →
  getOrCreateProperty k st = (Return p, st).
Proof.
  intros Hh Hp. unfold getOrCreateProperty. rewrite Hh. simpl.
  unfold bind, ret. by apply getKeyword_explicit.
Qed.

Lemma getOrCreateProperty_fresh st k info :
  m_supportedKeywords st !! k = Some info → m_properties st !! k = None →
  k ∉ m_autoGeneratedProperties_ st →
  getOrCreateProperty k st
  = (Return (length (store st)), created false k info st).
Proof.
  intros Hi Hp Ha. unfold getOrCreateProperty.
  rewrite (hasKeyword_absent _ _ Hp). simpl. unfold bind.
  rewrite (addKeyword_fresh _ _ _ Hi Hp Ha). simpl.
  apply getKeyword_explicit; [|simpl; by rewrite lookup_insert_eq].
  apply hasKeyword_true. simpl. rewrite lookup_insert_eq. eauto.
Qed.

Lemma hasKeyword_copyFrom_at st t s box k :
  hasKeyword (copyFrom_at t s box st) k = hasKeyword st k.
Proof.
  destruct (copyFrom_at_fields st t s box) as (_ & E2 & E3 & _).
  unfold hasKeyword, isAutoGenerated_. by rewrite E2, E3.
Qed.

(** C9. [getOrCreateProperty] on a keyword that has only an auto-generated
    instance promotes it: the handle returned is the instance that existed,
    with the store unchanged, [hasKeyword] turns true and the promotion
    warning is logged; [copyKeyword] with that keyword as target promotes it
    in the same way. *)
Theorem getOrCreateProperty_promotes st (name : string) (p : ptr) :
  supportsKeyword st name = true →
  m_properties st !! name = Some p →
  name ∈ m_autoGeneratedProperties_ st →
  hasKeyword st name = false ∧
  (∃ st',
     getOrCreateProperty name st = (Return p, st') ∧
     hasKeyword st' name = true ∧
     OpmLog st' = OpmLog st ++ [(Warning, promotion_msg name)] ∧
     m_properties st' !! name = Some p ∧
     store st' = store st) ∧
  (∀ src box, supportsKeyword st src = true →
     ∃ st',
       copyKeyword src name box st = (Return tt, st') ∧
       hasKeyword st' name = true ∧
       OpmLog st' = OpmLog st ++ [(Warning, promotion_msg name)] ∧
       m_properties st' !! name = Some p).
Proof.
  intros Hs Hp Ha. split; [by apply hasKeyword_auto|]. split.
  - exists (promoted name st). split_and!; try done.
    + by apply getOrCreateProperty_auto.
    + by apply (hasKeyword_promoted st name p).
  - intros src box Hsrc. apply count_pos_true in Hsrc as [info Hi].
    unfold copyKeyword, bind. rewrite (getKeyword_supported _ _ _ Hi).
    destruct (m_properties st !! src) as [s|] eqn:Hsp.
    + rewrite (getOrCreateProperty_auto _ _ _ Hs Hp Ha). unfold modify.
      eexists. split; [done|].
      destruct (copyFrom_at_fields (promoted name st) p s box)
        as (_ & E2 & _ & _ & E5 & _).
      rewrite hasKeyword_copyFrom_at, E2, E5. split_and!; try done.
      by apply (hasKeyword_promoted st name p).
    + assert (Hne : src ≠ name) by (intros ->; congruence).
      set (st1 := created true src info st).
      assert (Hp1 : m_properties st1 !! name = Some p)
        by (simpl; by rewrite lookup_insert_ne).
      assert (Ha1 : name ∈ m_autoGeneratedProperties_ st1)
        by (simpl; set_solver).
      rewrite (getOrCreateProperty_auto st1 name p Hs Hp1 Ha1). unfold modify.
      eexists. split; [done|].
      destruct (copyFrom_at_fields (promoted name st1) p (length (store st)) box)
        as (_ & E2 & _ & _ & E5 & _).
      rewrite hasKeyword_copyFrom_at, E2, E5. split_and!; try done.
      by apply (hasKeyword_promoted st1 name p).
Qed.

End Promotion.

(** ** Creation order, idempotence and the catalog *)

Section CreationOrder.
Context {T : Type}.
Implicit Types st : @GridProperties T.
Implicit Types info : @SupportedKeywordInfo T.

Lemma filter_none {A} (P : A → Prop) `{!∀ x, Decision (P x)} (l : list A) :
  (∀ x, x ∈ l → ¬ P x) → filter P l = [].
Proof.
  induction l as [|x l IH]; intros Hall; [done|].
  rewrite filter_cons_False by (apply Hall; left).
  apply IH. intros y Hy. apply Hall. by right.
Qed.

(** In a well-formed registry a keyword without instance has no entry in
    the creation-order list. *)
Lemma instances_of_absent st k :
  wf st → m_properties st !! k = None → instances_of st k = [].
Proof.
  intros (_ & _ & _ & _ & Hl & _) Hp. unfold instances_of.
  apply filter_none. intros p Hin Hn.
  rewrite Forall_forall in Hl. specialize (Hl p Hin).
  rewrite Hn in Hl. simpl in Hl. congruence.
Qed.

Lemma instances_of_created b k info st :
  wf st → m_supportedKeywords st !! k = Some info →
  m_properties st !! k = None →
  instances_of (created b k info st) k = [length (store st)].
Proof.
  intros Hwf Hi Hp.
  assert (Hname : getKeywordName info = k).
  { destruct Hwf as (Hcat & _). by apply (Hcat k info). }
  pose proof (instances_of_absent st k Hwf Hp) as Hnone.
  unfold instances_of in *. simpl m_property_list. rewrite filter_app.
  rewrite (filter_cons_True _ (length (store st)) [])
    by (by rewrite name_at_created_new, Hname).
  rewrite filter_nil.
  rewrite (filter_none _ (m_property_list st)); [done|].
  intros p Hin. rewrite name_at_created_old by (by eapply listed_lt).
  intros Hn. by pose proof (filter_nil_not_elem_of _ _ _ Hnone Hn).
Qed.

(** C3. On a supported keyword without instance, two calls of [addKeyword]
    in a row return true and then false; the size has grown by one and the
    keyword has exactly one instance, listed once. *)
Theorem addKeyword_twice st (name : string) :
  wf st →
  supportsKeyword st name = true →
  m_properties st !! name = None →
  ∃ st1 p,
    addKeyword name st = (Return true, st1) ∧
    addKeyword name st1 = (Return false, st1) ∧
    size st1 = size st + 1 ∧
    m_properties st1 !! name = Some p ∧
    instances_of st1 name = [p].
Proof.
  intros Hwf Hs Hp. apply count_pos_true in Hs as Hs'.
  destruct Hs' as [info Hi].
  assert (Ha : name ∉ m_autoGeneratedProperties_ st).
  { intros Ha. apply (wf_auto_present _ _ Hwf) in Ha as [? ?]. congruence. }
  exists (created false name info st), (length (store st)).
  split_and!.
  - by apply addKeyword_fresh.
  - apply addKeyword_explicit; [done|].
    apply hasKeyword_true. simpl. rewrite lookup_insert_eq. eauto.
  - unfold size. simpl. by rewrite length_app.
  - simpl. by rewrite lookup_insert_eq.
  - by apply instances_of_created.
Qed.

Lemma materialize_fresh st (op : Materialization * string) info :
  wf st → m_supportedKeywords st !! op.2 = Some info →
  m_properties st !! op.2 = None →
  materialize op st = (Return tt, created (is_lazy op.1) op.2 info st).
Proof.
  intros Hwf Hi Hp. destruct op as [[|] k]; simpl in *;
    unfold materialize, bind; simpl.
  - by rewrite (getKeyword_fresh _ _ _ Hi Hp).
  - rewrite (addKeyword_fresh _ _ _ Hi Hp); [done|].
    intros Ha. apply (wf_auto_present _ _ Hwf) in Ha as [? ?]. congruence.
Qed.

(** Materializing distinct keywords that have no instance yet appends their
    instances to the creation-order list, in the order of the requests. *)
Lemma materialize_all_fresh (ops : list (Materialization * string)) :
  ∀ st, wf st → NoDup ops.*2 →
  (∀ k, k ∈ ops.*2 →
        supportsKeyword st k = true ∧ m_properties st !! k = None) →
  ∃ st',
    materialize_all ops st = (Return tt, st') ∧ wf st' ∧
    m_supportedKeywords st' = m_supportedKeywords st ∧
    m_property_list st'
    = m_property_list st ++ seq (length (store st)) (length ops) ∧
    (∀ i k, ops.*2 !! i = Some k →
            m_properties st' !! k = Some (length (store st) + i)) ∧
    (∀ k, k ∉ ops.*2 → m_properties st' !! k = m_properties st !! k).
Proof.
  induction ops as [|op ops IH]; intros st Hwf Hnd Hfresh.
  - exists st. simpl. rewrite app_nil_r. split_and!; try done.
  - apply NoDup_cons in Hnd as [Hop Hnd]. simpl in Hop.
    destruct (Hfresh op.2) as [Hs Hp]; [simpl; left|].
    apply count_pos_true in Hs as [info Hi].
    set (st1 := created (is_lazy op.1) op.2 info st).
    assert (Hwf1 : wf st1) by (by apply wf_created).
    destruct (IH st1 Hwf1 Hnd) as (st' & Hrun & Hwf' & Hcat & Hlist & Hin & Hout).
    { intros k Hk. destruct (Hfresh k) as [Hsk Hpk]; [simpl; by right|].
      split; [done|]. simpl. rewrite lookup_insert_ne; [done|].
      intros <-. done. }
    exists st'. split_and!; try done.
    + simpl. unfold bind. by rewrite (materialize_fresh _ _ _ Hwf Hi Hp).
    + rewrite Hlist. simpl. rewrite length_app. simpl.
      rewrite <- app_assoc. simpl. by rewrite Nat.add_1_r.
    + intros [|i] k Hk; simpl in Hk.
      * assert (k = op.2) as -> by congruence.
        rewrite (Hout _ Hop). simpl.
        by rewrite lookup_insert_eq, Nat.add_0_r.
      * rewrite (Hin i k Hk). simpl. rewrite length_app. simpl.
        f_equal. lia.
    + intros k Hk. simpl in Hk. apply not_elem_of_cons in Hk as [Hne Hk].
      rewrite (Hout k Hk). simpl. by rewrite lookup_insert_ne.
Qed.

Lemma getKeyword_index_in_range st i p :
  m_property_list st !! i = Some p → getKeyword_index i st = (Return p, st).
Proof.
  intros H. unfold getKeyword_index, size.
  rewrite bool_decide_eq_true_2 by (by eapply lookup_lt_Some).
  by rewrite H.
Qed.

Lemma getKeyword_index_out_of_range st i :
  size st ≤ i →
  getKeyword_index i st = (Throw (invalid_argument "Invalid index"), st).
Proof.
  intros H. unfold getKeyword_index.
  by rewrite bool_decide_eq_false_2 by lia.
Qed.

(** C4. After N materializations of distinct supported keywords on a new
    registry, each lazy or explicit, the size is N, position i holds the
    very instance that [getKeyword] gives for the i-th keyword requested,
    and every position from the size on is out of range. *)
Theorem creation_order grid (kws : list (@SupportedKeywordInfo T))
    (ops : list (Materialization * string)) :
  NoDup ops.*2 →
  Forall (λ k, supportsKeyword (GridProperties_new grid kws) k = true) ops.*2 →
  ∃ st,
    materialize_all ops (GridProperties_new grid kws) = (Return tt, st) ∧
    size st = length ops ∧
    (∀ i k, ops.*2 !! i = Some k →
       ∃ p, getKeyword_index i st = (Return p, st) ∧
            getKeyword k st = (Return p, st)) ∧
    (∀ i, size st ≤ i →
       ∃ e, IndexOutOfRange e ∧ getKeyword_index i st = (Throw e, st)).
Proof.
  intros Hnd Hsup. rewrite Forall_forall in Hsup.
  destruct (materialize_all_fresh ops (GridProperties_new grid kws))
    as (st & Hrun & Hwf & Hcat & Hlist & Hin & _);
    [apply wf_GridProperties_new|done|by intros k Hk; split; [apply Hsup|]|].
  simpl in Hlist, Hin.
  exists st. split_and!; [done| | |].
  - unfold size. by rewrite Hlist, length_seq.
  - intros i k Hk. exists i.
    assert (Hi : i < length ops).
    { apply lookup_lt_Some in Hk. by rewrite length_fmap in Hk. }
    split.
    + apply getKeyword_index_in_range. rewrite Hlist.
      by rewrite lookup_seq_lt.
    + apply getKeyword_present; [|by apply Hin].
      unfold supportsKeyword. rewrite Hcat. apply Hsup.
      by eapply list_elem_of_lookup_2.
  - intros i Hi. eexists. split; [reflexivity|].
    by apply getKeyword_index_out_of_range.
Qed.

Lemma foldl_emplace_lookup (l : list (@SupportedKeywordInfo T))
    (m : gmap string SupportedKeywordInfo) (name : string) :
  foldl (λ m info, emplace (getKeywordName info) info m) m l !! name
  = match m !! name with
    | Some v => Some v
    | None => first_named name l
    end.
Proof.
  revert m. induction l as [|info l IH]; intros m; simpl.
  - unfold first_named. simpl. by destruct (m !! name).
  - rewrite IH. unfold emplace, first_named.
    destruct (decide (getKeywordName info = name)) as [E|E].
    + rewrite filter_cons_True by done. simpl. rewrite E.
      destruct (m !! name) as [v|] eqn:Hm; [by rewrite Hm|].
      by rewrite lookup_insert_eq.
    + rewrite filter_cons_False by done.
      destruct (m !! getKeywordName info); [done|].
      by rewrite lookup_insert_ne.
Qed.

(** C7, as the constructor does it: of several descriptors with one name,
    the catalog keeps the first; the later ones are dropped.  The catalog
    entry, the membership test and the defaults of a new property all come
    from that first descriptor. *)
Theorem constructor_first_wins grid (kws : list (@SupportedKeywordInfo T))
    (name : string) :
  m_supportedKeywords (GridProperties_new grid kws) !! name
  = first_named name kws ∧
  supportsKeyword (GridProperties_new grid kws) name
  = bool_decide (is_Some (first_named name kws)).
Proof.
  assert (E : m_supportedKeywords (GridProperties_new grid kws) !! name
              = first_named name kws).
  { unfold GridProperties_new. simpl. rewrite foldl_emplace_lookup.
    by rewrite lookup_empty. }
  split; [done|]. unfold supportsKeyword, count_pos. by rewrite E.
Qed.

End CreationOrder.

(** ** Region copy *)

Section RegionCopy.
Context {T : Type}.
Implicit Types st : @GridProperties T.
Implicit Types info : @SupportedKeywordInfo T.

(** The cells of a region-scoped copy: inside the region the source's
    value, outside the target's own. *)
Lemma copy_cells_lookup (src : list T) (idx : list nat) :
  ∀ (data : list T) (g : nat), length src = length data →
  foldl (copy_cell src) data idx !! g
  = if bool_decide (g ∈ idx) then src !! g else data !! g.
Proof.
  induction idx as [|i idx IH]; intros data g Hlen; simpl.
  - done.
  - assert (Hlen' : length src = length (copy_cell src data i)).
    { unfold copy_cell. destruct (src !! i); [|done].
      by rewrite length_insert. }
    rewrite (IH _ g Hlen').
    destruct (decide (g ∈ idx)) as [Hin|Hin].
    { rewrite (bool_decide_eq_true_2 _ Hin).
      rewrite (bool_decide_eq_true_2 (g ∈ i :: idx)); [done|by right]. }
    rewrite (bool_decide_eq_false_2 _ Hin).
    destruct (decide (g = i)) as [->|Hne].
    + rewrite (bool_decide_eq_true_2 (i ∈ i :: idx)) by left.
      unfold copy_cell. destruct (src !! i) as [v|] eqn:Hv.
      * apply list_lookup_insert_eq. rewrite <- Hlen.
        by eapply lookup_lt_Some.
      * apply lookup_ge_None. rewrite <- Hlen. by apply lookup_ge_None.
    + rewrite (bool_decide_eq_false_2 (g ∈ i :: idx))
        by (intros [?|?]%elem_of_cons; done).
      unfold copy_cell. destruct (src !! i); [|done].
      by rewrite list_lookup_insert_ne.
Qed.

Lemma copy_cells_self (data : list T) (idx : list nat) :
  foldl (copy_cell data) data idx = data.
Proof.
  apply list_eq. intros g. rewrite copy_cells_lookup by done.
  by case_bool_decide.
Qed.

Lemma wf_stored st k p :
  wf st → m_properties st !! k = Some p → is_Some (store st !! p).
Proof.
  intros (_ & _ & _ & Hprops & _) Hp. destruct (Hprops k p Hp) as [_ Hn].
  unfold name_at in Hn. destruct (store st !! p); [eauto|done].
Qed.

Lemma before_copy_created b k info st k' :
  wf st → m_supportedKeywords st !! k = Some info →
  m_properties st !! k = None →
  before_copy (created b k info st) k' = before_copy st k'.
Proof.
  intros Hwf Hi Hp. unfold before_copy. simpl.
  destruct (decide (k = k')) as [<-|Hne].
  - rewrite lookup_insert_eq, Hp, Hi. simpl.
    by rewrite lookup_app_r, Nat.sub_diag by lia.
  - rewrite lookup_insert_ne by done.
    destruct (m_properties st !! k') as [p|] eqn:Hp'; [|done].
    apply lookup_app_l. apply (wf_stored _ _ _ Hwf) in Hp' as [o Ho].
    by eapply lookup_lt_Some.
Qed.

(** What a supported [getKeyword] leaves behind. *)
Lemma getKeyword_effect st k :
  wf st → supportsKeyword st k = true →
  ∃ s ps0 st1,
    getKeyword k st = (Return s, st1) ∧ wf st1 ∧
    m_properties st1 !! k = Some s ∧ store st1 !! s = Some ps0 ∧
    before_copy st k = Some ps0 ∧
    m_supportedKeywords st1 = m_supportedKeywords st ∧
    (∀ k', before_copy st1 k' = before_copy st k') ∧
    (∀ k' p, m_properties st !! k' = Some p → m_properties st1 !! k' = Some p).
Proof.
  intros Hwf Hs. apply count_pos_true in Hs as [info Hi].
  rewrite (getKeyword_supported _ _ _ Hi).
  destruct (m_properties st !! k) as [s|] eqn:Hp.
  - destruct (wf_stored _ _ _ Hwf Hp) as [ps0 Hps].
    exists s, ps0, st. split_and!; try done.
    unfold before_copy. by rewrite Hp.
  - eexists _, _, _. split_and!; [done| | | | |done| |].
    + by apply wf_created.
    + simpl. by rewrite lookup_insert_eq.
    + simpl. by rewrite lookup_app_r, Nat.sub_diag by lia.
    + unfold before_copy. by rewrite Hp, Hi.
    + intros k'. by apply before_copy_created.
    + intros k' p Hk'. simpl. rewrite lookup_insert_ne; [done|].
      intros ->. congruence.
Qed.

(** What a supported [getOrCreateProperty] leaves behind. *)
Lemma getOrCreateProperty_effect st k :
  wf st → supportsKeyword st k = true →
  ∃ t pt0 st2,
    getOrCreateProperty k st = (Return t, st2) ∧ wf st2 ∧
    m_properties st2 !! k = Some t ∧ store st2 !! t = Some pt0 ∧
    before_copy st k = Some pt0 ∧
    (∀ k' p, m_properties st !! k' = Some p → m_properties st2 !! k' = Some p) ∧
    (∀ p o, store st !! p = Some o → store st2 !! p = Some o).
Proof.
  intros Hwf Hs. apply count_pos_true in Hs as Hs'. destruct Hs' as [info Hi].
  destruct (m_properties st !! k) as [t|] eqn:Hp.
  - destruct (wf_stored _ _ _ Hwf Hp) as [pt0 Hpt].
    assert (Hb : before_copy st k = Some pt0)
      by (unfold before_copy; by rewrite Hp).
    destruct (decide (k ∈ m_autoGeneratedProperties_ st)) as [Ha|Ha].
    + exists t, pt0, (promoted k st).
      split_and!; try done.
      * by apply getOrCreateProperty_auto.
      * by apply wf_promoted.
    + exists t, pt0, st. split_and!; try done.
      apply getOrCreateProperty_explicit; [|done].
      apply hasKeyword_true. eauto.
  - assert (Ha : k ∉ m_autoGeneratedProperties_ st).
    { intros Ha. apply (wf_auto_present _ _ Hwf) in Ha as [? ?]. congruence. }
    eexists _, _, _. split_and!.
    + by apply getOrCreateProperty_fresh.
    + by apply wf_created.
    + simpl. by rewrite lookup_insert_eq.
    + simpl. by rewrite lookup_app_r, Nat.sub_diag by lia.
    + unfold before_copy. by rewrite Hp, Hi.
    + intros k' p Hk'. simpl. rewrite lookup_insert_ne; [done|].
      intros ->. congruence.
    + intros p o Ho. simpl. rewrite lookup_app_l; [done|].
      by eapply lookup_lt_Some.
Qed.

(** C8. [copyKeyword] on two supported keywords returns; the source and
    the target are the instances that existed, or new default-filled ones;
    the source keeps its values; and each cell of the target holds the
    source's value when the cell is in the region and the value the target
    had before the call when it is not. *)
Theorem copyKeyword_region st (src dst : string) (box : Box) :
  wf st →
  supportsKeyword st src = true →
  supportsKeyword st dst = true →
  ∃ st' s t ps0 pt0 ps pt,
    copyKeyword src dst box st = (Return tt, st') ∧
    before_copy st src = Some ps0 ∧ before_copy st dst = Some pt0 ∧
    m_properties st' !! src = Some s ∧ m_properties st' !! dst = Some t ∧
    (∀ s0, m_properties st !! src = Some s0 → s0 = s) ∧
    (∀ t0, m_properties st !! dst = Some t0 → t0 = t) ∧
    store st' !! s = Some ps ∧ store st' !! t = Some pt ∧
    m_data ps = m_data ps0 ∧
    length (m_data pt) = length (m_data pt0) ∧
    (∀ g, m_data pt !! g
          = if bool_decide (g ∈ getIndexList box)
            then m_data ps0 !! g else m_data pt0 !! g).
Proof.
  intros Hwf Hsrc Hdst.
  destruct (getKeyword_effect st src Hwf Hsrc)
    as (s & ps0 & st1 & Hget & Hwf1 & Hs1 & Hps1 & Hbs & Hcat1 & Hb1 & Hmono1).
  assert (Hdst1 : supportsKeyword st1 dst = true)
    by (unfold supportsKeyword; by rewrite Hcat1).
  destruct (getOrCreateProperty_effect st1 dst Hwf1 Hdst1)
    as (t & pt0 & st2 & Hgoc & Hwf2 & Ht2 & Hpt2 & Hbt & Hmono2 & Hstore2).
  rewrite Hb1 in Hbt.
  pose proof (Hmono2 _ _ Hs1) as Hs2. pose proof (Hstore2 _ _ Hps1) as Hps2.
  assert (Hlen : length (m_data ps0) = length (m_data pt0)).
  { destruct Hwf2 as (_ & _ & _ & _ & _ & _ & Hshape).
    rewrite Forall_forall in Hshape.
    rewrite (Hshape ps0), (Hshape pt0); [done| |];
      by eapply list_elem_of_lookup_2. }
  assert (Hrun : copyKeyword src dst box st
                 = (Return tt, copyFrom_at t s box st2)).
  { unfold copyKeyword, bind. by rewrite Hget, Hgoc. }
  destruct (copyFrom_at_fields st2 t s box) as (_ & E2 & _).
  assert (Hst : store (copyFrom_at t s box st2)
                = <[t := copyFrom pt0 ps0 box]> (store st2)).
  { unfold copyFrom_at. by rewrite Hpt2, Hps2. }
  assert (Hpt : store (copyFrom_at t s box st2) !! t
                = Some (copyFrom pt0 ps0 box)).
  { rewrite Hst. apply list_lookup_insert_eq. by eapply lookup_lt_Some. }
  assert (Hps : ∃ ps, store (copyFrom_at t s box st2) !! s = Some ps ∧
                      m_data ps = m_data ps0).
  { destruct (decide (t = s)) as [->|Hne].
    - exists (copyFrom pt0 ps0 box). split; [done|].
      assert (pt0 = ps0) as -> by congruence. simpl.
      apply copy_cells_self.
    - exists ps0. split; [|done]. rewrite Hst.
      by rewrite list_lookup_insert_ne. }
  destruct Hps as (ps & Hps & Hdata).
  exists (copyFrom_at t s box st2), s, t, ps0, pt0, ps, (copyFrom pt0 ps0 box).
  rewrite E2. split_and!; try done.
  - intros s0 H0. apply Hmono1, Hmono2 in H0. congruence.
  - intros t0 H0. apply Hmono1, Hmono2 in H0. congruence.
  - simpl. apply length_copy_cells.
  - intros g. simpl. by apply copy_cells_lookup.
Qed.

End RegionCopy.

(** ** The scenario, run *)

Ltac by_computation := apply (bool_decide_unpack _); vm_compute; exact I.

Lemma wf_new_registry : wf new_registry.
Proof. apply wf_GridProperties_new. Qed.

Lemma wf_lazy_registry : wf lazy_registry.
Proof. apply wf_getKeyword, wf_new_registry. Qed.

Lemma reachable_written_registry : reachable written_registry.
Proof. apply reach_write_cell, reach_getKeyword, reach_new. Qed.

Lemma wf_copy_registry : wf copy_registry.
Proof. by_computation. Qed.

Example lazy_PORO_values :
  m_data <$> store lazy_registry !! 0 = Some [2; 2]%Z ∧
  hasKeyword lazy_registry "PORO" = false.
Proof. split; reflexivity. Qed.

Example copy_PORO_to_PERMX :
  m_data <$> store (copyKeyword "PORO" "PERMX" cells_0_1 copy_registry).2 !! 1
  = Some [1; 2; 9; 9]%Z.
Proof. reflexivity. Qed.

Lemma addKeyword_promotes_in_place_witness :
  m_data <$> store written_registry !! 0 = Some [2; 7]%Z ∧
  ∃ st',
    addKeyword "PORO" written_registry = (Return true, st') ∧
    hasKeyword st' "PORO" = true ∧
    m_data <$> store st' !! 0 = Some [2; 7]%Z ∧
    length (OpmLog st') = 1.
Proof.
  split; [reflexivity|].
  destruct (addKeyword_promotes_in_place written_registry "PORO" 0)
    as (st' & Hrun & _ & _ & Hstore & Hhas & Hlog & _).
  - reflexivity.
  - reflexivity.
  - by_computation.
  - exists st'. rewrite Hstore, Hlog. repeat split; try assumption.
Defined.

Lemma hasKeyword_iff_explicit_witness :
  ∃ p st',
    getKeyword "PORO" new_registry = (Return p, st') ∧
    provenance st' "PORO" = Some AutoGenerated ∧
    hasKeyword st' "PORO" = false.
Proof.
  destruct (hasKeyword_iff_explicit new_registry "PORO") as (_ & _ & _ & H).
  apply H; reflexivity.
Defined.

Lemma addKeyword_twice_witness :
  ∃ st1 p,
    addKeyword "PORO" new_registry = (Return true, st1) ∧
    addKeyword "PORO" st1 = (Return false, st1) ∧
    size st1 = size new_registry + 1 ∧
    m_properties st1 !! "PORO" = Some p ∧
    instances_of st1 "PORO" = [p].
Proof.
  apply (addKeyword_twice new_registry "PORO").
  - by_computation.
  - reflexivity.
  - reflexivity.
Defined.

Lemma creation_order_witness :
  ∃ st,
    materialize_all [(Lazy, "PERMX"); (Requested, "PORO")] new_registry
    = (Return tt, st) ∧
    size st = 2 ∧
    (∀ i k, [(Lazy, "PERMX"); (Requested, "PORO")].*2 !! i = Some k →
       ∃ p, getKeyword_index i st = (Return p, st) ∧
            getKeyword k st = (Return p, st)) ∧
    (∀ i, size st ≤ i →
       ∃ e, IndexOutOfRange e ∧ getKeyword_index i st = (Throw e, st)).
Proof.
  apply (creation_order grid_2x1x1 [PORO; PERMX]
           [(Lazy, "PERMX"); (Requested, "PORO")]).
  - by_computation.
  - by_computation.
Defined.

Lemma getInitializedKeyword_strict_witness :
  (∃ e, NotInitialized "PORO" e ∧
        getInitializedKeyword "PORO" lazy_registry = (Throw e, lazy_registry)) ∧
  (∃ e, UnsupportedKeyword "SWAT" e ∧
        getInitializedKeyword "SWAT" lazy_registry = (Throw e, lazy_registry)).
Proof.
  split.
  - destruct (getInitializedKeyword_strict lazy_registry "PORO")
      as (_ & H & _); [by_computation|].
    apply H; reflexivity.
  - destruct (getInitializedKeyword_strict lazy_registry "SWAT")
      as (_ & _ & H & _); [by_computation|].
    apply H; reflexivity.
Defined.

Lemma unsupported_name_fails_witness :
  supportsKeyword lazy_registry "SWAT" = false ∧
  hasKeyword lazy_registry "SWAT" = false ∧
  (∃ e, UnsupportedKeyword "SWAT" e ∧
        getKeyword "SWAT" lazy_registry = (Throw e, lazy_registry)) ∧
  (∃ e, UnsupportedKeyword "SWAT" e ∧
        getInitializedKeyword "SWAT" lazy_registry = (Throw e, lazy_registry)) ∧
  (∃ e, UnsupportedKeyword "SWAT" e ∧
        addKeyword "SWAT" lazy_registry = (Throw e, lazy_registry)) ∧
  (∃ e, UnsupportedKeyword "SWAT" e ∧
        getOrCreateProperty "SWAT" lazy_registry = (Throw e, lazy_registry)).
Proof.
  apply (unsupported_name_fails lazy_registry "SWAT").
  - by_computation.
  - reflexivity.
Defined.

(** C7, as claimed, fails: with two PORO descriptors, of defaults 2 and
    then 5, the catalog entry is not the last one; its default is 2. *)
Lemma constructor_not_last_wins :
  m_supportedKeywords (GridProperties_new grid_2x1x1 [PORO; PORO_again])
    !! "PORO"
  ≠ last_named "PORO" [PORO; PORO_again] ∧
  getDefaultValue
    <$> m_supportedKeywords (GridProperties_new grid_2x1x1 [PORO; PORO_again])
        !! "PORO"
  = Some 2%Z ∧
  getDefaultValue <$> last_named "PORO" [PORO; PORO_again] = Some 5%Z.
Proof.
  split; [|split; reflexivity].
  intros H. apply (f_equal (fmap getDefaultValue)) in H.
  vm_compute in H. discriminate H.
Qed.

Lemma copyKeyword_region_witness :
  ∃ st' t pt,
    copyKeyword "PORO" "PERMX" cells_0_1 copy_registry = (Return tt, st') ∧
    m_properties st' !! "PERMX" = Some t ∧
    store st' !! t = Some pt ∧
    m_data pt !! 0 = Some 1%Z ∧ m_data pt !! 1 = Some 2%Z ∧
    m_data pt !! 2 = Some 9%Z ∧ m_data pt !! 3 = Some 9%Z.
Proof.
  destruct (copyKeyword_region copy_registry "PORO" "PERMX" cells_0_1)
    as (st' & s & t & ps0 & pt0 & ps & pt & Hrun & Hs0 & Ht0 & _ & Ht & _ & _
        & _ & Hpt & _ & _ & Hcells).
  - by_computation.
  - reflexivity.
  - reflexivity.
  - injection Hs0 as <-. injection Ht0 as <-.
    exists st', t, pt. rewrite !Hcells. repeat split; assumption.
Defined.

Lemma getOrCreateProperty_promotes_witness :
  hasKeyword lazy_registry "PORO" = false ∧
  ∃ st',
    getOrCreateProperty "PORO" lazy_registry = (Return 0, st') ∧
    hasKeyword st' "PORO" = true ∧
    OpmLog st' = OpmLog lazy_registry ++ [(Warning, promotion_msg "PORO")].
Proof.
  destruct (getOrCreateProperty_promotes lazy_registry "PORO" 0)
    as (Hbefore & (st' & Hrun & Hhas & Hlog & _) & _).
  - reflexivity.
  - reflexivity.
  - by_computation.
  - split; [assumption|]. exists st'. repeat split; assumption.
Defined.

Lemma postAddKeyword_existing_witness :
  postAddKeyword "PORO" 7%Z id "1" new_registry = new_registry ∧
  m_supportedKeywords (postAddKeyword "PORO" 7%Z id "1" new_registry) !! "PORO"
  = Some PORO.
Proof. apply (postAddKeyword_existing new_registry "PORO" 7%Z id "1" PORO). reflexivity. Defined.

(** ** Further properties of the methods *)

Section Calls.
Context {T : Type}.
Implicit Types st : @GridProperties T.
Implicit Types info : @SupportedKeywordInfo T.

(** The four ways in which [addKeyword] ends. *)
Lemma addKeyword_cases st k :
  (supportsKeyword st k = false ∧
   addKeyword k st = (Throw (invalid_argument (unsupported_msg k)), st)) ∨
  (supportsKeyword st k = true ∧ hasKeyword st k = true ∧
   addKeyword k st = (Return false, st)) ∨
  (supportsKeyword st k = true ∧ k ∈ m_autoGeneratedProperties_ st ∧
   addKeyword k st = (Return true, promoted k st)) ∨
  (∃ info, m_supportedKeywords st !! k = Some info ∧
           m_properties st !! k = None ∧
           (k ∉ m_autoGeneratedProperties_ st) ∧
           addKeyword k st = (Return true, created false k info st)).
Proof.
  destruct (supportsKeyword st k) eqn:Hs.
  - destruct (hasKeyword st k) eqn:Hh.
    { right. left. by rewrite (addKeyword_explicit _ _ Hs Hh). }
    destruct (decide (k ∈ m_autoGeneratedProperties_ st)) as [Ha|Ha].
    { right. right. left. by rewrite (addKeyword_promote _ _ Hs Ha). }
    destruct (m_properties st !! k) as [p|] eqn:Hp.
    { assert (hasKeyword st k = true) by (apply hasKeyword_true; eauto).
      congruence. }
    apply count_pos_true in Hs as [info Hi].
    right. right. right. exists info.
    by rewrite (addKeyword_fresh _ _ _ Hi Hp Ha).
  - left. by rewrite (addKeyword_unsupported _ _ Hs).
Qed.

(** The three ways in which [addAutoGeneratedKeyword_] ends. *)
Lemma addAutoGeneratedKeyword__cases st k :
  (supportsKeyword st k = false ∧
   addAutoGeneratedKeyword_ k st
   = (Throw (invalid_argument (unsupported_msg k)), st)) ∨
  (supportsKeyword st k = true ∧ is_Some (m_properties st !! k) ∧
   addAutoGeneratedKeyword_ k st = (Return false, st)) ∨
  (∃ info, m_supportedKeywords st !! k = Some info ∧
           m_properties st !! k = None ∧
           addAutoGeneratedKeyword_ k st = (Return true, created true k info st)).
Proof.
  destruct (supportsKeyword st k) eqn:Hs.
  - destruct (m_properties st !! k) as [p|] eqn:Hp.
    + right. left. rewrite (addAutoGeneratedKeyword__present _ _ _ Hs Hp). eauto.
    + apply count_pos_true in Hs as [info Hi]. right. right. exists info.
      by rewrite (addAutoGeneratedKeyword__fresh _ _ _ Hi Hp).
  - left. by rewrite (addAutoGeneratedKeyword__unsupported _ _ Hs).
Qed.

Lemma extends_refl st : extends st st.
Proof. unfold extends. split_and!; try done. intros k Hk. by left. Qed.

Lemma extends_trans st1 st2 st3 :
  extends st1 st2 → extends st2 st3 → extends st1 st3.
Proof.
  intros (A1 & A2 & A3 & A4 & A5 & A6 & A7) (B1 & B2 & B3 & B4 & B5 & B6 & B7).
  unfold extends. split_and!.
  - by etrans.
  - by etrans.
  - by etrans.
  - by etrans.
  - intros k Hk. destruct (B5 k Hk) as [Hk2|Hk2]; [by apply A5|].
    right. destruct (m_properties st1 !! k) as [p|] eqn:Hp; [|done].
    rewrite (lookup_weaken _ _ _ _ Hp A2) in Hk2. done.
  - congruence.
  - congruence.
Qed.

Lemma extends_created b k info st :
  m_properties st !! k = None → extends st (created b k info st).
Proof.
  intros Hp. unfold extends. simpl. split_and!; try done.
  - by apply insert_subseteq.
  - by apply prefix_app_r.
  - intros k' Hk'. destruct b; [|by left].
    apply elem_of_union in Hk' as [Hk'|Hk']; [|by left].
    apply elem_of_singleton in Hk' as ->. by right.
Qed.

Lemma extends_promoted k st : extends st (promoted k st).
Proof.
  unfold extends. simpl. split_and!; try done.
  - by apply prefix_app_r.
  - intros k' Hk'. left. by apply elem_of_difference in Hk' as [? _].
Qed.

Lemma extends_copyFrom_at st t s box : extends st (copyFrom_at t s box st).
Proof.
  destruct (copyFrom_at_fields st t s box) as (E1 & E2 & E3 & E4 & E5 & E6).
  unfold extends. rewrite E1, E2, E3, E4, E5, E6. split_and!; try done.
  - intros k Hk. by left.
  - unfold copyFrom_at. destruct (store st !! t); [|done].
    by destruct (store st !! s).
Qed.

Lemma extends_addKeyword st k : extends st (addKeyword k st).2.
Proof.
  destruct (addKeyword_cases st k)
    as [(_ & ->)|[(_ & _ & ->)|[(_ & _ & ->)|(info & _ & Hp & _ & ->)]]]; simpl.
  - apply extends_refl.
  - apply extends_refl.
  - apply extends_promoted.
  - by apply extends_created.
Qed.

Lemma extends_addAutoGeneratedKeyword_ st k :
  extends st (addAutoGeneratedKeyword_ k st).2.
Proof.
  destruct (addAutoGeneratedKeyword__cases st k)
    as [(_ & ->)|[(_ & _ & ->)|(info & _ & Hp & ->)]]; simpl.
  - apply extends_refl.
  - apply extends_refl.
  - by apply extends_created.
Qed.

Lemma extends_getKeyword st k : extends st (getKeyword k st).2.
Proof.
  unfold getKeyword.
  destruct (hasKeyword st k); simpl; unfold bind, ret, lift.
  - destruct (map_at (m_properties st) k); apply extends_refl.
  - pose proof (extends_addAutoGeneratedKeyword_ st k) as H.
    destruct (addAutoGeneratedKeyword_ k st) as [[b|e] st']; simpl in *;
      [|done].
    by destruct (map_at (m_properties st') k).
Qed.

Lemma extends_getOrCreateProperty st k :
  extends st (getOrCreateProperty k st).2.
Proof.
  unfold getOrCreateProperty.
  destruct (hasKeyword st k); simpl; unfold bind, ret.
  - apply extends_getKeyword.
  - pose proof (extends_addKeyword st k) as H.
    destruct (addKeyword k st) as [[b|e] st']; simpl in *; [|done].
    eapply extends_trans; [exact H|apply extends_getKeyword].
Qed.

Lemma extends_copyKeyword st src dst box :
  extends st (copyKeyword src dst box st).2.
Proof.
  unfold copyKeyword, bind.
  pose proof (extends_getKeyword st src) as H1.
  destruct (getKeyword src st) as [[s|e] st1]; simpl in *; [|done].
  pose proof (extends_getOrCreateProperty st1 dst) as H2.
  destruct (getOrCreateProperty dst st1) as [[t|e] st2]; simpl in *;
    [|by eapply extends_trans].
  eapply extends_trans; [exact H1|].
  eapply extends_trans; [exact H2|]. apply extends_copyFrom_at.
Qed.

Lemma extends_postAddKeyword st name d pp dim :
  extends st (postAddKeyword name d pp dim st).
Proof.
  unfold extends, postAddKeyword. simpl. split_and!; try done.
  - unfold emplace. destruct (m_supportedKeywords st !! name) eqn:E; [done|].
    by apply insert_subseteq.
  - intros k Hk. by left.
Qed.

(** Every call extends the state it starts from. *)
Lemma call_extends st st' : call st st' → extends st st'.
Proof.
  destruct 1.
  - apply extends_getKeyword.
  - unfold getKeyword_index, ret, throw.
    case_bool_decide; [|apply extends_refl].
    destruct (m_property_list st !! i); apply extends_refl.
  - unfold getInitializedKeyword, throw, lift.
    destruct (hasKeyword st k); [apply extends_refl|].
    destruct (supportsKeyword st k); apply extends_refl.
  - apply extends_addKeyword.
  - apply extends_getOrCreateProperty.
  - apply extends_copyKeyword.
  - apply extends_postAddKeyword.
Qed.

End Calls.

(** ** What a call keeps *)

Section Monotone.
Context {T : Type}.
Implicit Types st : @GridProperties T.
Implicit Types info : @SupportedKeywordInfo T.

(** X1. No method of the header writes to the message container of the
    registry: after any call [getMessageContainer] gives what it gave
    before. *)
Theorem message_container_untouched st st' :
  call st st' → getMessageContainer st' = getMessageContainer st.
Proof. intros H. by destruct (call_extends _ _ H) as (_ & _ & _ & _ & _ & E & _). Qed.

(** X2. A call never removes or replaces an instance and never reorders:
    a keyword keeps the handle it has, the creation-order list is only
    appended to, so every position keeps its instance, and the size does
    not shrink. *)
Theorem instances_persist st st' :
  call st st' →
  (∀ k p, m_properties st !! k = Some p → m_properties st' !! k = Some p) ∧
  m_property_list st `prefix_of` m_property_list st' ∧
  (∀ i p, getKeyword_index i st = (Return p, st) →
          getKeyword_index i st' = (Return p, st')) ∧
  size st ≤ size st'.
Proof.
  intros H. destruct (call_extends _ _ H) as (_ & Hp & Hl & _).
  split_and!; [|done| |by apply prefix_length].
  - intros k p Hk. by eapply lookup_weaken.
  - intros i p Hi. apply getKeyword_index_in_range.
    unfold getKeyword_index, ret, throw in Hi.
    case_bool_decide; [|done].
    destruct (m_property_list st !! i) as [q|] eqn:Hq; [|done].
    injection Hi as ->. by eapply prefix_lookup_Some.
Qed.

(** X3. A call never takes a keyword out of the catalog and never turns an
    explicit keyword back into an auto-generated or absent one. *)
Theorem explicit_persists st st' (k : string) :
  call st st' →
  (supportsKeyword st k = true → supportsKeyword st' k = true) ∧
  (hasKeyword st k = true → hasKeyword st' k = true).
Proof.
  intros H. destruct (call_extends _ _ H) as (Hc & Hp & _ & _ & Ha & _).
  split.
  - unfold supportsKeyword. rewrite !count_pos_true.
    intros [info Hi]. exists info. by eapply lookup_weaken.
  - rewrite !hasKeyword_true. intros [[p Hk] Hn]. split.
    + exists p. by eapply lookup_weaken.
    + intros Hk'. destruct (Ha k Hk') as [?|?]; [done|congruence].
Qed.

(** X4. The log is written by promotion only: [getKeyword],
    [getInitializedKeyword] and [postAddKeyword] never log, and
    [addKeyword] logs one warning exactly when the keyword is supported and
    auto-generated, and nothing otherwise. *)
Theorem log_only_on_promotion st (k : string) (d : T) (pp : list T → list T)
    (dim : string) :
  OpmLog (getKeyword k st).2 = OpmLog st ∧
  OpmLog (getInitializedKeyword k st).2 = OpmLog st ∧
  OpmLog (postAddKeyword k d pp dim st) = OpmLog st ∧
  OpmLog (addKeyword k st).2
  = (if supportsKeyword st k && isAutoGenerated_ st k
     then OpmLog st ++ [(Warning, promotion_msg k)] else OpmLog st).
Proof.
  split_and!.
  - unfold getKeyword.
    destruct (hasKeyword st k); simpl; unfold bind, ret, lift.
    + by destruct (map_at (m_properties st) k).
    + destruct (addAutoGeneratedKeyword__cases st k)
        as [(_ & ->)|[(_ & _ & ->)|(info & _ & _ & ->)]]; simpl; [done| |].
      * by destruct (map_at (m_properties st) k).
      * done.
  - unfold getInitializedKeyword, throw, lift.
    destruct (hasKeyword st k); [done|]. by destruct (supportsKeyword st k).
  - done.
  - unfold isAutoGenerated_.
    destruct (addKeyword_cases st k)
      as [(Hs & ->)|[(Hs & Hh & ->)|[(Hs & Ha & ->)|(info & Hi & _ & Ha & ->)]]];
      simpl.
    + by rewrite Hs.
    + rewrite Hs. apply hasKeyword_true in Hh as [_ Hn].
      by rewrite (bool_decide_eq_false_2 _ Hn).
    + by rewrite Hs, (bool_decide_eq_true_2 _ Ha).
    + rewrite (bool_decide_eq_false_2 _ Ha). by rewrite andb_false_r.
Qed.

End Monotone.

(** ** Results of the accessors *)

Section Accessors.
Context {T : Type}.
Implicit Types st : @GridProperties T.
Implicit Types info : @SupportedKeywordInfo T.

(** X5. On a supported keyword [addKeyword] returns true exactly when the
    keyword was not explicit before, and in either case the keyword is
    explicit afterwards. *)
Theorem addKeyword_result st (k : string) :
  wf st → supportsKeyword st k = true →
  ∃ st', addKeyword k st = (Return (negb (hasKeyword st k)), st') ∧
         hasKeyword st' k = true.
Proof.
  intros Hwf Hs.
  destruct (addKeyword_cases st k)
    as [(Hs' & _)|[(_ & Hh & E)|[(_ & Ha & E)|(info & Hi & Hp & Ha & E)]]].
  - congruence.
  - exists st. by rewrite Hh.
  - exists (promoted k st). rewrite (hasKeyword_auto _ _ Ha). split; [done|].
    destruct (wf_auto_present _ _ Hwf Ha) as [p Hp].
    by apply (hasKeyword_promoted st k p).
  - exists (created false k info st).
    rewrite (hasKeyword_absent _ _ Hp). split; [done|].
    apply hasKeyword_true. simpl. rewrite lookup_insert_eq. eauto.
Qed.

(** X6. [getOrCreateProperty] is [addKeyword] followed by [getKeyword]:
    same result, same final state, also when the call throws. *)
Theorem getOrCreateProperty_is_add_then_get st (name : string) :
  wf st →
  getOrCreateProperty name st = (addKeyword name ;;; getKeyword name) st.
Proof.
  intros Hwf. unfold getOrCreateProperty.
  destruct (hasKeyword st name) eqn:Hh; simpl; unfold bind, ret.
  - apply hasKeyword_true in Hh as Hh'. destruct Hh' as [[p Hp] _].
    by rewrite (addKeyword_explicit _ _ (wf_supported _ _ _ Hwf Hp) Hh).
  - by destruct (addKeyword name st) as [[b|e] st'].
Qed.

(** X7. A lazy read is idempotent: when [getKeyword] has returned a
    handle, the same call on the state it left returns the same handle and
    changes nothing. *)
Theorem getKeyword_idempotent st st' (k : string) (p : ptr) :
  getKeyword k st = (Return p, st') → getKeyword k st' = (Return p, st').
Proof.
  intros H.
  destruct (m_properties st !! k) as [p0|] eqn:Hp.
  - destruct (hasKeyword st k) eqn:Hh.
    + rewrite (getKeyword_explicit _ _ _ Hh Hp) in H.
      injection H as <- <-. by apply getKeyword_explicit.
    + destruct (supportsKeyword st k) eqn:Hs.
      * rewrite (getKeyword_present _ _ _ Hs Hp) in H.
        injection H as <- <-. by apply getKeyword_present.
      * by rewrite (getKeyword_unsupported _ _ Hs Hh) in H.
  - destruct (supportsKeyword st k) eqn:Hs.
    + apply count_pos_true in Hs as [info Hi].
      rewrite (getKeyword_fresh _ _ _ Hi Hp) in H. injection H as <- <-.
      apply getKeyword_present.
      * by apply (count_pos_Some _ _ info).
      * simpl. by rewrite lookup_insert_eq.
    + by rewrite (getKeyword_unsupported _ _ Hs (hasKeyword_absent _ _ Hp)) in H.
Qed.

(** X8. A lazy read is invisible to the two predicates: after
    [getKeyword], whether it returned or threw, [hasKeyword] and
    [supportsKeyword] answer for every keyword what they answered
    before. *)
Theorem getKeyword_keeps_predicates st (k k' : string) :
  hasKeyword (getKeyword k st).2 k' = hasKeyword st k' ∧
  supportsKeyword (getKeyword k st).2 k' = supportsKeyword st k'.
Proof.
  destruct (m_properties st !! k) as [p0|] eqn:Hp.
  - destruct (hasKeyword st k) eqn:Hh.
    + by rewrite (getKeyword_explicit _ _ _ Hh Hp).
    + destruct (supportsKeyword st k) eqn:Hs.
      * by rewrite (getKeyword_present _ _ _ Hs Hp).
      * by rewrite (getKeyword_unsupported _ _ Hs Hh).
  - destruct (supportsKeyword st k) eqn:Hs.
    + apply count_pos_true in Hs as [info Hi].
      rewrite (getKeyword_fresh _ _ _ Hi Hp). simpl. split; [|done].
      destruct (decide (k = k')) as [<-|Hne].
      * rewrite (hasKeyword_absent _ _ Hp). apply hasKeyword_auto. simpl.
        by apply elem_of_union_l, elem_of_singleton.
      * unfold hasKeyword, isAutoGenerated_, count_pos. simpl.
        rewrite lookup_insert_ne by done. f_equal. f_equal.
        apply bool_decide_ext.
        rewrite elem_of_union, elem_of_singleton.
        split; [intros [E|?]; [congruence|done]|by right].
    + by rewrite (getKeyword_unsupported _ _ Hs (hasKeyword_absent _ _ Hp)).
Qed.

(** X9. In a well-formed registry each of [getKeyword], [addKeyword] and
    [getOrCreateProperty] returns exactly when the keyword is supported. *)
Theorem returns_iff_supported st (k : string) :
  wf st →
  ((∃ p st', getKeyword k st = (Return p, st')) ↔ supportsKeyword st k = true) ∧
  ((∃ b st', addKeyword k st = (Return b, st')) ↔ supportsKeyword st k = true) ∧
  ((∃ p st', getOrCreateProperty k st = (Return p, st'))
   ↔ supportsKeyword st k = true).
Proof.
  intros Hwf.
  destruct (supportsKeyword st k) eqn:Hs.
  - split_and!; (split; [done|intros _]).
    + destruct (getKeyword_effect st k Hwf Hs) as (p & _ & st' & E & _). eauto.
    + destruct (addKeyword_cases st k)
        as [(Hs' & _)|[(_ & _ & E)|[(_ & _ & E)|(info & _ & _ & _ & E)]]];
        [congruence|eauto..].
    + destruct (getOrCreateProperty_effect st k Hwf Hs) as (p & _ & st' & E & _).
      eauto.
  - pose proof (wf_unsupported_absent _ _ Hwf Hs) as Hp.
    pose proof (hasKeyword_absent _ _ Hp) as Hh.
    split_and!; (split; [|done]); intros (x & st' & E).
    + by rewrite (getKeyword_unsupported _ _ Hs Hh) in E.
    + by rewrite (addKeyword_unsupported _ _ Hs) in E.
    + unfold getOrCreateProperty in E. rewrite Hh in E. simpl in E.
      unfold bind in E. by rewrite (addKeyword_unsupported _ _ Hs) in E.
Qed.

(** X10. For an explicit keyword the three reading accessors agree: they
    return the same handle and leave the state as it is. *)
Theorem explicit_accessors_agree st (k : string) :
  hasKeyword st k = true →
  ∃ p, getKeyword k st = (Return p, st) ∧
       getInitializedKeyword k st = (Return p, st) ∧
       getOrCreateProperty k st = (Return p, st).
Proof.
  intros Hh. apply hasKeyword_true in Hh as Hh'. destruct Hh' as [[p Hp] _].
  exists p. split_and!.
  - by apply getKeyword_explicit.
  - unfold getInitializedKeyword, lift, map_at. by rewrite Hh, Hp.
  - by apply getOrCreateProperty_explicit.
Qed.

(** X11. In a well-formed registry every position below the size holds the
    instance of some keyword, the one [getKeyword] returns for that
    keyword, and no other position holds it. *)
Theorem positional_matches_named st (i : nat) :
  wf st → i < size st →
  ∃ p k, getKeyword_index i st = (Return p, st) ∧
         getKeyword k st = (Return p, st) ∧
         (∀ j, getKeyword_index j st = (Return p, st) → j = i).
Proof.
  intros Hwf Hi. unfold size in Hi.
  destruct (lookup_lt_is_Some_2 _ _ Hi) as [p Hp].
  pose proof Hwf as (_ & _ & _ & _ & Hl & Hnd & _).
  rewrite Forall_forall in Hl.
  specialize (Hl p (list_elem_of_lookup_2 _ _ _ Hp)).
  destruct (name_at st p) as [k|] eqn:Hn; [|done]. simpl in Hl.
  exists p, k. split_and!.
  - by apply getKeyword_index_in_range.
  - apply getKeyword_present; [|done]. by eapply wf_supported.
  - intros j Hj. unfold getKeyword_index, ret, throw in Hj.
    case_bool_decide; [|done].
    destruct (m_property_list st !! j) as [q|] eqn:Hq; [|done].
    injection Hj as ->. by eapply NoDup_lookup.
Qed.

End Accessors.

(** ** The two views of the instances, and how calls compose *)

Section Composition.
Context {T : Type}.
Implicit Types st : @GridProperties T.
Implicit Types info : @SupportedKeywordInfo T.

(** X12. At every point of a registry's life the size is the number of
    keywords that have an instance, every such instance is found at some
    position, an explicit keyword is a supported one, and an
    auto-generated tag belongs to a keyword that has an instance. *)
Theorem registry_views_agree st :
  reachable st →
  size st = base.size (m_properties st) ∧
  (∀ k p, m_properties st !! k = Some p →
          ∃ i, getKeyword_index i st = (Return p, st)) ∧
  (∀ k, hasKeyword st k = true → supportsKeyword st k = true) ∧
  (∀ k, isAutoGenerated_ st k = true → provenance st k = Some AutoGenerated).
Proof.
  intros Hr. pose proof (reachable_wf _ Hr) as Hwf.
  pose proof Hwf as (_ & _ & Hauto & Hprops & Hl & Hnd & _).
  rewrite Forall_forall in Hl.
  split_and!.
  - unfold size. rewrite <- length_map_to_list.
    rewrite <- (length_fmap snd (map_to_list (m_properties st))).
    apply Permutation_length, NoDup_Permutation; [done| |].
    + apply NoDup_fmap_2_strong; [|apply NoDup_map_to_list].
      intros [k1 p1] [k2 p2] H1 H2 E. simpl in E. subst p2.
      apply elem_of_map_to_list in H1, H2.
      destruct (Hprops _ _ H1) as [_ N1]. destruct (Hprops _ _ H2) as [_ N2].
      congruence.
    + intros p. rewrite list_elem_of_fmap. split.
      * intros Hin. specialize (Hl p Hin).
        destruct (name_at st p) as [k|]; [|done]. simpl in Hl.
        exists (k, p). split; [done|]. by apply elem_of_map_to_list.
      * intros ([k q] & -> & Hin). apply elem_of_map_to_list in Hin.
        by destruct (Hprops _ _ Hin).
  - intros k p Hk. destruct (Hprops _ _ Hk) as [Hin _].
    apply list_elem_of_lookup in Hin as [i Hi]. exists i.
    by apply getKeyword_index_in_range.
  - intros k Hh. apply hasKeyword_true in Hh as [[p Hp] _].
    by eapply wf_supported.
  - intros k Hk. unfold isAutoGenerated_ in Hk.
    apply bool_decide_eq_true in Hk.
    destruct (wf_auto_present _ _ Hwf Hk) as [p Hp].
    unfold provenance. by rewrite Hp, bool_decide_eq_true_2.
Qed.

(** X13. [copyKeyword] is not undone by its failure.  When the source is
    unsupported it throws for the source and changes nothing; when the
    source is supported and the target is not, it throws for the target
    and leaves the state that the lazy read of the source produced, so an
    absent source stays materialized as auto-generated. *)
Theorem copyKeyword_failures st (src dst : string) (box : Box) :
  wf st →
  (supportsKeyword st src = false →
   copyKeyword src dst box st
   = (Throw (invalid_argument (unsupported_msg src)), st)) ∧
  (supportsKeyword st src = true → supportsKeyword st dst = false →
   copyKeyword src dst box st
   = (Throw (invalid_argument (unsupported_msg dst)), (getKeyword src st).2) ∧
   (m_properties st !! src = None →
    size (getKeyword src st).2 = size st + 1 ∧
    provenance (getKeyword src st).2 src = Some AutoGenerated)).
Proof.
  intros Hwf. split.
  - intros Hs. unfold copyKeyword, bind.
    rewrite (getKeyword_unsupported _ _ Hs); [done|].
    by apply hasKeyword_absent, wf_unsupported_absent.
  - intros Hs Hd.
    destruct (getKeyword_effect st src Hwf Hs)
      as (s & ps0 & st1 & Hget & Hwf1 & _ & _ & _ & Hcat & _).
    split.
    + unfold copyKeyword, bind. rewrite Hget. simpl.
      assert (Hd1 : supportsKeyword st1 dst = false)
        by (unfold supportsKeyword; by rewrite Hcat).
      unfold getOrCreateProperty.
      rewrite (hasKeyword_absent _ _ (wf_unsupported_absent _ _ Hwf1 Hd1)).
      simpl. unfold bind. by rewrite (addKeyword_unsupported _ _ Hd1).
    + intros Hp. apply count_pos_true in Hs as [info Hi].
      rewrite (getKeyword_fresh _ _ _ Hi Hp). simpl. split.
      * unfold size. simpl. by rewrite length_app.
      * unfold provenance. simpl. rewrite lookup_insert_eq.
        rewrite bool_decide_eq_true_2; [done|].
        by apply elem_of_union_l, elem_of_singleton.
Qed.

(** X14. [copyKeyword] between two different supported keywords that have
    no instance creates the source first and the target second; the source
    is left auto-generated, the target explicit, and nothing is logged. *)
Theorem copyKeyword_creates_both st (src dst : string) (box : Box) :
  wf st →
  supportsKeyword st src = true → supportsKeyword st dst = true →
  m_properties st !! src = None → m_properties st !! dst = None →
  src ≠ dst →
  ∃ st',
    copyKeyword src dst box st = (Return tt, st') ∧
    m_property_list st'
    = m_property_list st ++ [length (store st); S (length (store st))] ∧
    m_properties st' !! src = Some (length (store st)) ∧
    m_properties st' !! dst = Some (S (length (store st))) ∧
    provenance st' src = Some AutoGenerated ∧
    provenance st' dst = Some Explicit ∧
    OpmLog st' = OpmLog st.
Proof.
  intros Hwf Hs Hd Hps Hpd Hne.
  apply count_pos_true in Hs as [isrc Hi]. apply count_pos_true in Hd as [idst Hj].
  set (st1 := created true src isrc st).
  assert (Hd1 : m_properties st1 !! dst = None)
    by (simpl; by rewrite lookup_insert_ne).
  assert (Ha1 : dst ∉ m_autoGeneratedProperties_ st1).
  { simpl. rewrite elem_of_union, elem_of_singleton. intros [E|Ha]; [done|].
    apply (wf_auto_present _ _ Hwf) in Ha as [? ?]. congruence. }
  set (st2 := created false dst idst st1).
  assert (Hrun : copyKeyword src dst box st
                 = (Return tt, copyFrom_at (length (store st1))
                                  (length (store st)) box st2)).
  { unfold copyKeyword, bind. rewrite (getKeyword_fresh _ _ _ Hi Hps).
    fold st1. by rewrite (getOrCreateProperty_fresh st1 dst idst Hj Hd1 Ha1). }
  destruct (copyFrom_at_fields st2 (length (store st1)) (length (store st)) box)
    as (_ & E2 & E3 & E4 & E5 & _).
  eexists. split; [exact Hrun|].
  unfold provenance. rewrite E2, E3, E4, E5.
  unfold st2, st1 in *. simpl in *.
  rewrite !length_app. simpl. rewrite !Nat.add_1_r.
  rewrite !lookup_insert_eq.
  rewrite !(lookup_insert_ne _ dst src) by done.
  rewrite !lookup_insert_eq.
  split_and!; try done.
  - by rewrite <- app_assoc.
  - rewrite bool_decide_eq_true_2; [done|].
    by apply elem_of_union_l, elem_of_singleton.
  - by rewrite (bool_decide_eq_false_2 _ Ha1).
Qed.

(** X15. [copyKeyword] of a supported keyword without instance onto
    itself creates the instance by the lazy read and then promotes it: one
    instance is added, the keyword ends explicit, and the promotion
    warning is logged although nothing used the keyword before. *)
Theorem copyKeyword_onto_itself st (k : string) (box : Box) :
  wf st →
  supportsKeyword st k = true → m_properties st !! k = None →
  ∃ st',
    copyKeyword k k box st = (Return tt, st') ∧
    size st' = size st + 1 ∧
    hasKeyword st' k = true ∧
    OpmLog st' = OpmLog st ++ [(Warning, promotion_msg k)].
Proof.
  intros Hwf Hs Hp. apply count_pos_true in Hs as Hs'.
  destruct Hs' as [info Hi].
  set (st1 := created true k info st).
  assert (Hp1 : m_properties st1 !! k = Some (length (store st)))
    by (simpl; by rewrite lookup_insert_eq).
  assert (Ha1 : k ∈ m_autoGeneratedProperties_ st1)
    by (simpl; by apply elem_of_union_l, elem_of_singleton).
  assert (Hrun : copyKeyword k k box st
                 = (Return tt, copyFrom_at (length (store st))
                                  (length (store st)) box (promoted k st1))).
  { unfold copyKeyword, bind. rewrite (getKeyword_fresh _ _ _ Hi Hp).
    fold st1. by rewrite (getOrCreateProperty_auto st1 k _ Hs Hp1 Ha1). }
  destruct (copyFrom_at_fields (promoted k st1) (length (store st))
              (length (store st)) box) as (_ & _ & _ & E4 & E5 & _).
  eexists. split; [exact Hrun|].
  rewrite hasKeyword_copyFrom_at. unfold size. rewrite E4, E5.
  split_and!.
  - simpl. by rewrite length_app.
  - by apply (hasKeyword_promoted st1 k (length (store st))).
  - done.
Qed.

(** X16. [postAddKeyword] with a name that the catalog does not have adds
    the descriptor made of its arguments and leaves the other entries
    alone; the name is supported afterwards, and in a well-formed registry
    a lazy read of it then returns a new instance built from that
    descriptor. *)
Theorem postAddKeyword_new st (name : string) (d : T) (pp : list T → list T)
    (dim : string) :
  m_supportedKeywords st !! name = None →
  m_supportedKeywords (postAddKeyword name d pp dim st) !! name
  = Some (mkSupportedKeywordInfo name d pp dim) ∧
  (∀ k, k ≠ name →
        m_supportedKeywords (postAddKeyword name d pp dim st) !! k
        = m_supportedKeywords st !! k) ∧
  supportsKeyword (postAddKeyword name d pp dim st) name = true ∧
  (wf st →
   ∃ p st',
     getKeyword name (postAddKeyword name d pp dim st) = (Return p, st') ∧
     m_kwInfo <$> store st' !! p = Some (mkSupportedKeywordInfo name d pp dim) ∧
     size st' = size st + 1).
Proof.
  intros Hn.
  assert (E : m_supportedKeywords (postAddKeyword name d pp dim st)
              = <[name := mkSupportedKeywordInfo name d pp dim]>
                  (m_supportedKeywords st)).
  { unfold postAddKeyword. simpl. by apply emplace_None. }
  assert (E1 : m_supportedKeywords (postAddKeyword name d pp dim st) !! name
               = Some (mkSupportedKeywordInfo name d pp dim))
    by (by rewrite E, lookup_insert_eq).
  split_and!; [done| | |].
  - intros k Hk. by rewrite E, lookup_insert_ne.
  - unfold supportsKeyword. by apply (count_pos_Some _ _ _ E1).
  - intros Hwf.
    assert (Hp : m_properties (postAddKeyword name d pp dim st) !! name = None).
    { simpl. apply (wf_unsupported_absent _ _ Hwf). by apply count_pos_false. }
    rewrite (getKeyword_fresh _ _ _ E1 Hp). eexists _, _. split; [done|].
    split.
    + simpl. by rewrite lookup_app_r, Nat.sub_diag by lia.
    + unfold size. simpl. by rewrite length_app.
Qed.

Lemma first_named_is_Some (name : string) (kws : list (@SupportedKeywordInfo T)) :
  is_Some (first_named name kws) ↔ name ∈ getKeywordName <$> kws.
Proof.
  unfold first_named. induction kws as [|info kws IH]; simpl.
  - split; [by intros [? ?]|by intros ?%elem_of_nil].
  - rewrite elem_of_cons. destruct (decide (getKeywordName info = name)) as [E|E].
    + rewrite filter_cons_True by done. simpl. split; [by left|eauto].
    + rewrite filter_cons_False by done. rewrite IH.
      split; [by right|by intros [?|?]].
Qed.

(** X17. A newly constructed registry supports exactly the names of the
    descriptors it was given and holds nothing: the size is zero, no
    keyword is explicit, every positional access is out of range, and
    [getInitializedKeyword] fails for every keyword. *)
Theorem new_registry_is_empty grid (kws : list (@SupportedKeywordInfo T))
    (k : string) (i : nat) :
  (supportsKeyword (GridProperties_new grid kws) k = true
   ↔ k ∈ getKeywordName <$> kws) ∧
  size (GridProperties_new grid kws) = 0 ∧
  hasKeyword (GridProperties_new grid kws) k = false ∧
  getKeyword_index i (GridProperties_new grid kws)
  = (Throw (invalid_argument "Invalid index"), GridProperties_new grid kws) ∧
  (∃ e, getInitializedKeyword k (GridProperties_new grid kws)
        = (Throw e, GridProperties_new grid kws)).
Proof.
  split_and!.
  - unfold supportsKeyword. rewrite count_pos_true.
    unfold GridProperties_new. simpl.
    rewrite foldl_emplace_lookup, lookup_empty. apply first_named_is_Some.
  - done.
  - by apply hasKeyword_absent.
  - apply getKeyword_index_out_of_range. unfold size. simpl. lia.
  - unfold getInitializedKeyword, throw.
    rewrite (hasKeyword_absent (GridProperties_new grid kws) k) by done.
    destruct (supportsKeyword (GridProperties_new grid kws) k); eauto.
Qed.

(** X18. Reading a supported keyword lazily before adding it ends in the
    registry that adding it directly gives, with the same instance at the
    same place, except that the promotion warning has been logged. *)
Theorem lazy_then_explicit st (k : string) :
  wf st →
  supportsKeyword st k = true → m_properties st !! k = None →
  (addKeyword k (getKeyword k st).2).1 = (addKeyword k st).1 ∧
  (addKeyword k (getKeyword k st).2).2
  = OpmLog_addMessage Warning (promotion_msg k) (addKeyword k st).2.
Proof.
  intros Hwf Hs Hp. apply count_pos_true in Hs as Hs'.
  destruct Hs' as [info Hi].
  assert (Ha : k ∉ m_autoGeneratedProperties_ st).
  { intros Ha. apply (wf_auto_present _ _ Hwf) in Ha as [? ?]. congruence. }
  rewrite (getKeyword_fresh _ _ _ Hi Hp), (addKeyword_fresh _ _ _ Hi Hp Ha).
  simpl.
  rewrite (addKeyword_promote (created true k info st) k); [|done|].
  - split; [done|]. simpl. unfold promoted, OpmLog_addMessage. simpl.
    f_equal. apply set_eq. intros x.
    rewrite elem_of_difference, elem_of_union, elem_of_singleton.
    split; [by intros [[?|?] ?]|].
    intros Hx. split; [by right|]. by intros ->.
  - simpl. by apply elem_of_union_l, elem_of_singleton.
Qed.

End Composition.

(** ** The scenario, continued *)

Lemma message_container_untouched_witness :
  getMessageContainer (addKeyword "PORO" lazy_registry).2
  = getMessageContainer lazy_registry.
Proof.
  apply (message_container_untouched lazy_registry
           (addKeyword "PORO" lazy_registry).2).
  apply call_addKeyword.
Defined.

Lemma instances_persist_witness :
  m_properties (addKeyword "PERMX" lazy_registry).2 !! "PORO" = Some 0 ∧
  size lazy_registry ≤ size (addKeyword "PERMX" lazy_registry).2.
Proof.
  destruct (instances_persist lazy_registry (addKeyword "PERMX" lazy_registry).2)
    as (Hkeep & _ & _ & Hsize).
  - apply call_addKeyword.
  - split; [apply Hkeep; reflexivity|exact Hsize].
Defined.

Lemma explicit_persists_witness :
  hasKeyword (copyKeyword "PORO" "PERMX" cells_0_1 copy_registry).2 "PORO"
  = true.
Proof.
  destruct (explicit_persists copy_registry
              (copyKeyword "PORO" "PERMX" cells_0_1 copy_registry).2 "PORO")
    as (_ & Hkeep).
  - apply call_copyKeyword.
  - apply Hkeep. reflexivity.
Defined.

Lemma addKeyword_result_witness :
  ∃ st', addKeyword "PORO" lazy_registry
         = (Return (negb (hasKeyword lazy_registry "PORO")), st') ∧
         hasKeyword st' "PORO" = true.
Proof.
  apply (addKeyword_result lazy_registry "PORO").
  - by_computation.
  - reflexivity.
Defined.

Lemma getOrCreateProperty_is_add_then_get_witness :
  getOrCreateProperty "PERMX" lazy_registry
  = (addKeyword "PERMX" ;;; getKeyword "PERMX") lazy_registry.
Proof.
  apply (getOrCreateProperty_is_add_then_get lazy_registry "PERMX").
  by_computation.
Defined.

Lemma getKeyword_idempotent_witness :
  getKeyword "PORO" lazy_registry = (Return 0, lazy_registry).
Proof.
  apply (getKeyword_idempotent new_registry lazy_registry "PORO" 0).
  reflexivity.
Defined.

Lemma returns_iff_supported_witness :
  ∃ p st', getKeyword "PERMX" lazy_registry = (Return p, st').
Proof.
  destruct (returns_iff_supported lazy_registry "PERMX") as ([_ Hget] & _).
  - by_computation.
  - apply Hget. reflexivity.
Defined.

Lemma explicit_accessors_agree_witness :
  ∃ p, getKeyword "PORO" copy_registry = (Return p, copy_registry) ∧
       getInitializedKeyword "PORO" copy_registry = (Return p, copy_registry) ∧
       getOrCreateProperty "PORO" copy_registry = (Return p, copy_registry).
Proof.
  apply (explicit_accessors_agree copy_registry "PORO"). reflexivity.
Defined.

Lemma positional_matches_named_witness :
  ∃ p k, getKeyword_index 1 copy_registry = (Return p, copy_registry) ∧
         getKeyword k copy_registry = (Return p, copy_registry) ∧
         (∀ j, getKeyword_index j copy_registry = (Return p, copy_registry) →
               j = 1).
Proof.
  apply (positional_matches_named copy_registry 1).
  - by_computation.
  - unfold size. simpl. lia.
Defined.

Lemma registry_views_agree_witness :
  size written_registry = base.size (m_properties written_registry).
Proof.
  destruct (registry_views_agree written_registry) as (Hsize & _).
  - apply reach_write_cell, reach_getKeyword, reach_new.
  - exact Hsize.
Defined.

Lemma copyKeyword_failures_witness :
  copyKeyword "PERMX" "SWAT" cells_0_1 lazy_registry
  = (Throw (invalid_argument (unsupported_msg "SWAT")),
     (getKeyword "PERMX" lazy_registry).2) ∧
  size (getKeyword "PERMX" lazy_registry).2 = size lazy_registry + 1.
Proof.
  destruct (copyKeyword_failures lazy_registry "PERMX" "SWAT" cells_0_1)
    as (_ & Hfail).
  - by_computation.
  - destruct Hfail as (Hthrow & Hleft); [reflexivity|reflexivity|].
    split; [exact Hthrow|]. apply Hleft. reflexivity.
Defined.

Lemma copyKeyword_creates_both_witness :
  ∃ st',
    copyKeyword "PORO" "PERMX" cells_0_1 new_registry = (Return tt, st') ∧
    m_property_list st' = [0; 1] ∧
    provenance st' "PORO" = Some AutoGenerated ∧
    provenance st' "PERMX" = Some Explicit.
Proof.
  destruct (copyKeyword_creates_both new_registry "PORO" "PERMX" cells_0_1)
    as (st' & Hrun & Hlist & _ & _ & Hsrc & Hdst & _).
  - by_computation.
  - reflexivity.
  - reflexivity.
  - reflexivity.
  - reflexivity.
  - discriminate.
  - exists st'. repeat split; assumption.
Defined.

Lemma copyKeyword_onto_itself_witness :
  ∃ st',
    copyKeyword "PORO" "PORO" cells_0_1 new_registry = (Return tt, st') ∧
    size st' = size new_registry + 1 ∧
    hasKeyword st' "PORO" = true ∧
    OpmLog st' = OpmLog new_registry ++ [(Warning, promotion_msg "PORO")].
Proof.
  apply (copyKeyword_onto_itself new_registry "PORO" cells_0_1).
  - by_computation.
  - reflexivity.
  - reflexivity.
Defined.

Lemma postAddKeyword_new_witness :
  supportsKeyword new_registry "PORV" = false ∧
  supportsKeyword (postAddKeyword "PORV" 1%Z id "Volume" new_registry) "PORV"
  = true.
Proof.
  split; [reflexivity|].
  destruct (postAddKeyword_new new_registry "PORV" 1%Z id "Volume")
    as (_ & _ & Hs & _).
  - reflexivity.
  - exact Hs.
Defined.

Lemma lazy_then_explicit_witness :
  (addKeyword "PORO" (getKeyword "PORO" new_registry).2).2
  = OpmLog_addMessage Warning (promotion_msg "PORO")
      (addKeyword "PORO" new_registry).2.
Proof.
  destruct (lazy_then_explicit new_registry "PORO") as (_ & Hsame).
  - by_computation.
  - reflexivity.
  - reflexivity.
  - exact Hsame.
Defined.

(** ** Failures, stored values and the size *)

Section Frames.
Context {T : Type}.
Implicit Types st : @GridProperties T.
Implicit Types info : @SupportedKeywordInfo T.

Lemma getKeyword_returns_lookup st st' k p :
  getKeyword k st = (Return p, st') → m_properties st' !! k = Some p.
Proof.
  unfold getKeyword. destruct (hasKeyword st k); simpl;
    unfold bind, ret, lift, map_at.
  - destruct (m_properties st !! k) eqn:E; intros H; simplify_eq. done.
  - destruct (addAutoGeneratedKeyword_ k st) as [[b|e] st1]; [|done].
    destruct (m_properties st1 !! k) eqn:E; intros H; simplify_eq. done.
Qed.

Lemma getOrCreateProperty_returns_lookup st st' k p :
  getOrCreateProperty k st = (Return p, st') → m_properties st' !! k = Some p.
Proof.
  unfold getOrCreateProperty. destruct (hasKeyword st k); simpl;
    unfold bind, ret.
  - apply getKeyword_returns_lookup.
  - destruct (addKeyword k st) as [[b|e] st1]; [|done].
    apply getKeyword_returns_lookup.
Qed.

Lemma getKeyword_throws st st' k e :
  getKeyword k st = (Throw e, st') →
  st' = st ∧ e = invalid_argument (unsupported_msg k) ∧
  supportsKeyword st k = false.
Proof.
  intros H.
  destruct (m_properties st !! k) as [p0|] eqn:Hp.
  - destruct (hasKeyword st k) eqn:Hh.
    + by rewrite (getKeyword_explicit _ _ _ Hh Hp) in H.
    + destruct (supportsKeyword st k) eqn:Hs.
      * by rewrite (getKeyword_present _ _ _ Hs Hp) in H.
      * rewrite (getKeyword_unsupported _ _ Hs Hh) in H. by simplify_eq.
  - destruct (supportsKeyword st k) eqn:Hs.
    + apply count_pos_true in Hs as [info Hi].
      by rewrite (getKeyword_fresh _ _ _ Hi Hp) in H.
    + rewrite (getKeyword_unsupported _ _ Hs (hasKeyword_absent _ _ Hp)) in H.
      by simplify_eq.
Qed.

Lemma getOrCreateProperty_throws st st' k e :
  getOrCreateProperty k st = (Throw e, st') →
  st' = st ∧ e = invalid_argument (unsupported_msg k).
Proof.
  unfold getOrCreateProperty. destruct (hasKeyword st k) eqn:Hh; simpl;
    unfold bind, ret.
  - intros H. by destruct (getKeyword_throws _ _ _ _ H) as (? & ? & _).
  - destruct (addKeyword_cases st k)
      as [(_ & ->)|[(_ & Hh' & _)|[(Hs & _ & ->)|(info & Hi & _ & _ & ->)]]].
    + intros H. by simplify_eq.
    + congruence.
    + intros H. apply getKeyword_throws in H as (_ & _ & Hs'). simpl in Hs'.
      unfold supportsKeyword in *. simpl in Hs'. congruence.
    + intros H. apply getKeyword_throws in H as (_ & _ & Hs').
      unfold supportsKeyword in Hs'. simpl in Hs'.
      rewrite (count_pos_Some _ _ _ Hi) in Hs'. done.
Qed.

(** X19. Every failure is a [std::invalid_argument] that names its cause;
    the [at] lookups never fail.  The accessors of one keyword and the
    positional one leave the state as it was when they throw, and
    [copyKeyword] throws only for an unsupported source or target. *)
Theorem failures_are_invalid_argument st st' (k src dst : string) (i : nat)
    (box : Box) (e : exception) :
  (getKeyword k st = (Throw e, st') →
   st' = st ∧ e = invalid_argument (unsupported_msg k)) ∧
  (addKeyword k st = (Throw e, st') →
   st' = st ∧ e = invalid_argument (unsupported_msg k)) ∧
  (getOrCreateProperty k st = (Throw e, st') →
   st' = st ∧ e = invalid_argument (unsupported_msg k)) ∧
  (getInitializedKeyword k st = (Throw e, st') →
   st' = st ∧ (NotInitialized k e ∨ e = invalid_argument (not_supported_msg k))) ∧
  (getKeyword_index i st = (Throw e, st') →
   st' = st ∧ IndexOutOfRange e ∧ size st ≤ i) ∧
  (copyKeyword src dst box st = (Throw e, st') →
   e = invalid_argument (unsupported_msg src) ∨
   e = invalid_argument (unsupported_msg dst)).
Proof.
  split_and!.
  - intros H. by destruct (getKeyword_throws _ _ _ _ H) as (? & ? & _).
  - destruct (addKeyword_cases st k)
      as [(_ & ->)|[(_ & _ & ->)|[(_ & _ & ->)|(info & _ & _ & _ & ->)]]];
      intros H; by simplify_eq.
  - apply getOrCreateProperty_throws.
  - unfold getInitializedKeyword, throw, lift, map_at.
    destruct (hasKeyword st k) eqn:Hh.
    + apply hasKeyword_true in Hh as [[p Hp] _]. rewrite Hp. done.
    + destruct (supportsKeyword st k); intros H; simplify_eq;
        (split; [done|]); [by left|by right].
  - unfold getKeyword_index, ret, throw. case_bool_decide as Hi.
    + destruct (lookup_lt_is_Some_2 _ _ Hi) as [p Hp]. by rewrite Hp.
    + intros H. simplify_eq. split_and!; [done|done|lia].
  - unfold copyKeyword, bind.
    destruct (getKeyword src st) as [[s|e1] st1] eqn:E1.
    + destruct (getOrCreateProperty dst st1) as [[t|e2] st2] eqn:E2; [done|].
      intros H. simplify_eq. right.
      by destruct (getOrCreateProperty_throws _ _ _ _ E2).
    + intros H. simplify_eq. left.
      by destruct (getKeyword_throws _ _ _ _ E1) as (_ & ? & _).
Qed.

Lemma store_kept_addKeyword st k :
  store st `prefix_of` store (addKeyword k st).2.
Proof.
  destruct (addKeyword_cases st k)
    as [(_ & ->)|[(_ & _ & ->)|[(_ & _ & ->)|(info & _ & _ & _ & ->)]]]; simpl;
    try done.
  by apply prefix_app_r.
Qed.

Lemma store_kept_getKeyword st k :
  store st `prefix_of` store (getKeyword k st).2.
Proof.
  unfold getKeyword.
  destruct (hasKeyword st k); simpl; unfold bind, ret, lift.
  - by destruct (map_at (m_properties st) k).
  - destruct (addAutoGeneratedKeyword__cases st k)
      as [(_ & ->)|[(_ & _ & ->)|(info & _ & _ & ->)]]; simpl; [done|done|].
    by apply prefix_app_r.
Qed.

Lemma store_kept_getOrCreateProperty st k :
  store st `prefix_of` store (getOrCreateProperty k st).2.
Proof.
  unfold getOrCreateProperty.
  destruct (hasKeyword st k); simpl; unfold bind, ret.
  - apply store_kept_getKeyword.
  - pose proof (store_kept_addKeyword st k) as H.
    destruct (addKeyword k st) as [[b|e] st1]; simpl in *; [|done].
    etrans; [exact H|apply store_kept_getKeyword].
Qed.

(** X20. Materialization, promotion and catalog extension never write to
    a property that exists: after [getKeyword], [addKeyword],
    [getOrCreateProperty], [getInitializedKeyword] and [postAddKeyword]
    every stored property is at its address with the values it had; new
    properties are only added behind them. *)
Theorem stored_values_kept st (k : string) (d : T) (pp : list T → list T)
    (dim : string) :
  store st `prefix_of` store (getKeyword k st).2 ∧
  store st `prefix_of` store (addKeyword k st).2 ∧
  store st `prefix_of` store (getOrCreateProperty k st).2 ∧
  store (getInitializedKeyword k st).2 = store st ∧
  store (postAddKeyword k d pp dim st) = store st.
Proof.
  split_and!.
  - apply store_kept_getKeyword.
  - apply store_kept_addKeyword.
  - apply store_kept_getOrCreateProperty.
  - unfold getInitializedKeyword, throw, lift.
    destruct (hasKeyword st k); [done|]. by destruct (supportsKeyword st k).
  - done.
Qed.

(** X21. [copyKeyword] writes through the target's handle only: when it
    returns, every property that was stored before the call, other than
    the target, is at its address with the values it had. *)
Theorem copyKeyword_frame st st' (src dst : string) (box : Box) :
  copyKeyword src dst box st = (Return tt, st') →
  ∃ t, m_properties st' !! dst = Some t ∧
       ∀ p o, p ≠ t → store st !! p = Some o → store st' !! p = Some o.
Proof.
  unfold copyKeyword, bind.
  pose proof (store_kept_getKeyword st src) as H1.
  destruct (getKeyword src st) as [[s|e1] st1] eqn:E1; [|done].
  pose proof (store_kept_getOrCreateProperty st1 dst) as H2.
  destruct (getOrCreateProperty dst st1) as [[t|e2] st2] eqn:E2; [|done].
  simpl in *. unfold modify. intros H. simplify_eq.
  destruct (copyFrom_at_fields st2 t s box) as (_ & E & _).
  exists t. split.
  - rewrite E. by eapply getOrCreateProperty_returns_lookup.
  - intros p o Hne Hp.
    assert (Hp2 : store st2 !! p = Some o).
    { eapply prefix_lookup_Some; [|exact H2].
      by eapply prefix_lookup_Some. }
    unfold copyFrom_at. destruct (store st2 !! t); [|done].
    destruct (store st2 !! s); [|done]. simpl.
    by rewrite list_lookup_insert_ne.
Qed.

(** X22. In a well-formed registry [getKeyword], [addKeyword] and
    [getOrCreateProperty] each add one instance when the keyword is
    supported and has none, and add nothing in every other case. *)
Theorem size_accounting st (k : string) :
  wf st →
  size (getKeyword k st).2
  = size st + (if supportsKeyword st k && negb (count_pos (m_properties st) k)
               then 1 else 0) ∧
  size (addKeyword k st).2
  = size st + (if supportsKeyword st k && negb (count_pos (m_properties st) k)
               then 1 else 0) ∧
  size (getOrCreateProperty k st).2
  = size st + (if supportsKeyword st k && negb (count_pos (m_properties st) k)
               then 1 else 0).
Proof.
  intros Hwf.
  assert (Hnew : ∀ b info, size (created b k info st) = size st + 1)
    by (intros; unfold size; simpl; by rewrite length_app).
  destruct (supportsKeyword st k) eqn:Hs; simpl.
  - apply count_pos_true in Hs as Hs'. destruct Hs' as [info Hi].
    destruct (m_properties st !! k) as [p|] eqn:Hp.
    + rewrite (count_pos_Some _ _ _ Hp). simpl. rewrite Nat.add_0_r.
      rewrite (getKeyword_present _ _ _ Hs Hp).
      destruct (decide (k ∈ m_autoGeneratedProperties_ st)) as [Ha|Ha].
      * rewrite (addKeyword_promote _ _ Hs Ha).
        by rewrite (getOrCreateProperty_auto _ _ _ Hs Hp Ha).
      * assert (Hh : hasKeyword st k = true) by (apply hasKeyword_true; eauto).
        rewrite (addKeyword_explicit _ _ Hs Hh).
        by rewrite (getOrCreateProperty_explicit _ _ _ Hh Hp).
    + rewrite (count_pos_None _ _ Hp). simpl.
      assert (Ha : k ∉ m_autoGeneratedProperties_ st).
      { intros Ha. apply (wf_auto_present _ _ Hwf) in Ha as [? ?]. congruence. }
      rewrite (getKeyword_fresh _ _ _ Hi Hp), (addKeyword_fresh _ _ _ Hi Hp Ha).
      rewrite (getOrCreateProperty_fresh _ _ _ Hi Hp Ha). simpl.
      by rewrite !Hnew.
  - pose proof (wf_unsupported_absent _ _ Hwf Hs) as Hp.
    pose proof (hasKeyword_absent _ _ Hp) as Hh.
    rewrite Nat.add_0_r.
    rewrite (getKeyword_unsupported _ _ Hs Hh), (addKeyword_unsupported _ _ Hs).
    unfold getOrCreateProperty. rewrite Hh. simpl. unfold bind.
    by rewrite (addKeyword_unsupported _ _ Hs).
Qed.

End Frames.

Lemma failures_are_invalid_argument_witness :
  NotInitialized "PORO" (invalid_argument (not_initialized_msg "PORO")) ∨
  invalid_argument (not_initialized_msg "PORO")
  = invalid_argument (not_supported_msg "PORO").
Proof.
  destruct (failures_are_invalid_argument lazy_registry lazy_registry
              "PORO" "PORO" "PORO" 0 cells_0_1
              (invalid_argument (not_initialized_msg "PORO")))
    as (_ & _ & _ & Hinit & _).
  apply Hinit. reflexivity.
Defined.

Lemma copyKeyword_frame_witness :
  ∃ t, m_properties (copyKeyword "PORO" "PERMX" cells_0_1 copy_registry).2
         !! "PERMX" = Some t ∧
       ∀ p o, p ≠ t → store copy_registry !! p = Some o →
              store (copyKeyword "PORO" "PERMX" cells_0_1 copy_registry).2 !! p
              = Some o.
Proof.
  apply (copyKeyword_frame copy_registry
           (copyKeyword "PORO" "PERMX" cells_0_1 copy_registry).2
           "PORO" "PERMX" cells_0_1).
  reflexivity.
Defined.

Lemma size_accounting_witness :
  size (getKeyword "PERMX" lazy_registry).2 = size lazy_registry + 1 ∧
  size (addKeyword "PORO" lazy_registry).2 = size lazy_registry + 0.
Proof.
  destruct (size_accounting lazy_registry "PERMX") as (Hget & _);
    [by_computation|].
  destruct (size_accounting lazy_registry "PORO") as (_ & Hadd & _);
    [by_computation|].
  split; [exact Hget|exact Hadd].
Defined.
